(** * Document structuring and chunking engine (app/parse.py)

    A shallow embedding of the chunking code of [app/parse.py] and the
    properties its specification states about it, followed by further
    properties of that code and of the answer parsing of [app/reason.py].

    Modelling conventions.
    - A Python [str] is a list of characters; a character is a code point
      below 256, held in an [ascii].  The character classes ([isspace],
      [\s], [\d], [\w], [lower]) are Python's, restricted to that range.
    - Python [int]s that can be negative ([max_rows], [max_chars], slice
      bounds) are [Z]; lengths and indices produced by [enumerate] are [nat].
    - A call that raises returns [None].
    - The two ratios and the consistency of the classifier are exact
      rationals.  Python computes them as binary64 quotients of two ints and
      compares them with the literals 0.4, 0.3, 0.6 and 0.2; the quotient of
      two ints is correctly rounded, so both comparisons agree whenever the
      denominator is below 2^50 (any content of fewer than 2^50 lines). *)

From Stdlib Require Import List Ascii ZArith QArith Lia Bool Arith.
From Stdlib Require String DecimalString DecimalNat.
From Stdlib Require Import Sorted.
Import ListNotations.
Import String.StringSyntax.
Delimit Scope string_scope with string.
Close Scope Q_scope.

(** ** Python strings *)

Module Py.

Definition str := list ascii.

(** A string literal of the source. *)
Definition lit (x : String.string) : str := String.list_ascii_of_string x.
Arguments lit x%_string.

Definition chr_nl : ascii := "010"%char.
Definition chr_tab : ascii := "009"%char.
Definition chr_pipe : ascii := "|"%char.

(** [bool(s)] for a string: true iff it is not empty. *)
Definition truthy (x : str) : bool :=
  match x with [] => false | _ :: _ => true end.

Definition code (c : ascii) : nat := nat_of_ascii c.

Definition in_range (lo hi : nat) (c : ascii) : bool :=
  (lo <=? code c) && (code c <=? hi).

(** [str.isspace] on one character: TAB, LF, VT, FF, CR, the separators
    FS, GS, RS, US, the space, NEL and the no-break space. *)
Definition isspace (c : ascii) : bool :=
  in_range 9 13 c || in_range 28 32 c || (code c =? 133) || (code c =? 160).

Definition char_in (cs : str) (c : ascii) : bool :=
  existsb (Ascii.eqb c) cs.

Fixpoint lstrip_by (p : ascii -> bool) (x : str) : str :=
  match x with
  | [] => []
  | c :: t => if p c then lstrip_by p t else x
  end.

Definition rstrip_by (p : ascii -> bool) (x : str) : str :=
  rev (lstrip_by p (rev x)).

Definition strip_by (p : ascii -> bool) (x : str) : str :=
  rstrip_by p (lstrip_by p x).

(** [x.strip()] *)
Definition strip (x : str) : str := strip_by isspace x.

(** [x.strip(chars)] *)
Definition strip_chars (chars x : str) : str := strip_by (char_in chars) x.

(** [c in x] for a one-character [c]. *)
Definition contains (c : ascii) (x : str) : bool :=
  existsb (Ascii.eqb c) x.

(** [x.count(c)] for a one-character [c]. *)
Definition count (c : ascii) (x : str) : nat :=
  length (filter (Ascii.eqb c) x).

Definition cons_head (c : ascii) (l : list str) : list str :=
  match l with
  | [] => [[c]]
  | h :: r => (c :: h) :: r
  end.

(** [x.split(sep)] for a one-character separator. *)
Fixpoint split (sep : ascii) (x : str) : list str :=
  match x with
  | [] => [[]]
  | c :: t =>
      if Ascii.eqb c sep then [] :: split sep t
      else cons_head c (split sep t)
  end.

(** [x.split('\n\n')]: the leftmost occurrences of the two-character
    separator, not overlapping. *)
Fixpoint split_nlnl (x : str) : list str :=
  match x with
  | [] => [[]]
  | c :: t =>
      match t with
      | d :: r =>
          if Ascii.eqb c chr_nl && Ascii.eqb d chr_nl
          then [] :: split_nlnl r
          else cons_head c (split_nlnl t)
      | [] => [[c]]
      end
  end.

(** [sep.join(l)] *)
Fixpoint join (sep : str) (l : list str) : str :=
  match l with
  | [] => []
  | [a] => a
  | a :: r => a ++ sep ++ join sep r
  end.

(** [a.lower()] on one character: the ASCII capitals and the Latin-1
    capitals (all of 192..222 but the multiplication sign 215). *)
Definition lower_char (c : ascii) : ascii :=
  if in_range 65 90 c || (in_range 192 222 c && negb (code c =? 215))
  then ascii_of_nat (code c + 32) else c.

Definition lower (x : str) : str := map lower_char x.

Fixpoint starts_with (p x : str) : bool :=
  match p, x with
  | [], _ => true
  | _ :: _, [] => false
  | a :: p', b :: x' => Ascii.eqb a b && starts_with p' x'
  end.

(** [p in x] for strings. *)
Fixpoint substring_in (p x : str) : bool :=
  starts_with p x ||
  match x with
  | [] => false
  | _ :: t => substring_in p t
  end.

(** [str(n)] for a non-negative int. *)
Definition str_of_nat (n : nat) : str :=
  String.list_ascii_of_string
    (DecimalString.NilZero.string_of_uint (Nat.to_uint n)).

(** [l[i:j]] with Python's treatment of negative and oversized bounds. *)
Definition clamp_index (len i : Z) : Z :=
  if (i <? 0)%Z then Z.max (i + len) 0 else Z.min i len.

Definition slice {A : Type} (l : list A) (i j : Z) : list A :=
  let len := Z.of_nat (length l) in
  let lo := clamp_index len i in
  let hi := clamp_index len j in
  firstn (Z.to_nat (hi - lo)) (skipn (Z.to_nat lo) l).

(** [range(start, stop, step)]; [None] is the [ValueError] of a zero step.
    The number of elements is Python's: the quotient rounded up. *)
Definition range (start stop step : Z) : option (list Z) :=
  if (step =? 0)%Z then None
  else
    let n :=
      if (0 <? step)%Z
      then (if (start <? stop)%Z then (stop - start - 1) / step + 1 else 0)%Z
      else (if (stop <? start)%Z then (start - stop - 1) / (- step) + 1 else 0)%Z
    in
    Some (map (fun k => (start + Z.of_nat k * step)%Z) (seq 0 (Z.to_nat n))).

(** [enumerate(l)] *)
Definition enumerate {A : Type} (l : list A) : list (nat * A) :=
  combine (seq 0 (length l)) l.

End Py.

Import Py.

(** ** Table Chunker *)

(** [line.strip()] used as a condition. *)
Definition non_blank (line : str) : bool := truthy (strip line).

(** [[line for line in content.split('\n') if line.strip()]] *)
Definition non_empty_lines (content : str) : list str :=
  filter non_blank (split chr_nl content).

Definition has_separator (line : str) : bool :=
  contains chr_pipe line || contains chr_tab line.

(** The [for ... else] that looks for a header among the first three
    non-blank lines: the pair [(header_line, start_idx)]. *)
Fixpoint find_header (ls : list (nat * str)) : str * Z :=
  match ls with
  | [] => ([], 0%Z)
  | (i, line) :: r =>
      if has_separator line then (line, Z.of_nat i + 1)%Z
      else find_header r
  end.

Definition header_of (lines : list str) : str * Z :=
  find_header (enumerate (slice lines 0 3)).

Definition table_chunk (lines : list str) (header_line : str)
    (start_idx max_rows i : Z) : str :=
  let chunk_lines := slice lines i (i + max_rows) in
  if truthy header_line && (start_idx <? i)%Z
  then header_line ++ [chr_nl] ++ join [chr_nl] chunk_lines
  else join [chr_nl] chunk_lines.

Definition chunk_table_content (content : str) (max_rows : Z)
    : option (list str) :=
  let lines := non_empty_lines content in
  if (Z.of_nat (length lines) <=? max_rows)%Z then Some [content]
  else
    let '(header_line, start_idx) := header_of lines in
    match range start_idx (Z.of_nat (length lines)) max_rows with
    | None => None
    | Some idx =>
        Some (map (table_chunk lines header_line start_idx max_rows) idx)
    end.

(** ** Regular expressions

    The six header patterns use character classes, concatenation,
    alternation-free repetition and the anchors [^] and [$] only, so a
    matcher by derivatives decides them.  A backtracking matcher finds a
    match whenever one exists, hence agrees with it on whether
    [re.match] returns a match. *)

Module Re.

Inductive regex : Type :=
| Void : regex
| Eps : regex
| Cls : (ascii -> bool) -> regex
| Cat : regex -> regex -> regex
| Alt : regex -> regex -> regex
| Star : regex -> regex.

Fixpoint nullable (r : regex) : bool :=
  match r with
  | Void => false
  | Eps => true
  | Cls _ => false
  | Cat a b => nullable a && nullable b
  | Alt a b => nullable a || nullable b
  | Star _ => true
  end.

Fixpoint deriv (c : ascii) (r : regex) : regex :=
  match r with
  | Void => Void
  | Eps => Void
  | Cls p => if p c then Eps else Void
  | Cat a b =>
      if nullable a then Alt (Cat (deriv c a) b) (deriv c b)
      else Cat (deriv c a) b
  | Alt a b => Alt (deriv c a) (deriv c b)
  | Star a => Cat (deriv c a) (Star a)
  end.

(** [r+], [r?], [r{n}], [r{n,}] and [r{n,m}] *)
Definition Plus (r : regex) : regex := Cat r (Star r).
Definition Opt (r : regex) : regex := Alt Eps r.

Fixpoint Rep (n : nat) (r : regex) : regex :=
  match n with
  | O => Eps
  | S k => Cat r (Rep k r)
  end.

Definition AtLeast (n : nat) (r : regex) : regex := Cat (Rep n r) (Star r).

Fixpoint UpTo (n : nat) (r : regex) : regex :=
  match n with
  | O => Eps
  | S k => Opt (Cat r (UpTo k r))
  end.

Definition Between (n m : nat) (r : regex) : regex :=
  Cat (Rep n r) (UpTo (m - n) r).

Definition Chr (a : ascii) : regex := Cls (Ascii.eqb a).

(** The position is one where [$] matches under [re.MULTILINE]: the end
    of the string or just before a newline. *)
Definition at_line_end (x : str) : bool :=
  match x with
  | [] => true
  | c :: _ => Ascii.eqb c chr_nl
  end.

(** [re.match('^(r)$', x, re.MULTILINE)] returns a match. *)
Fixpoint match_line (r : regex) (x : str) : bool :=
  (nullable r && at_line_end x) ||
  match x with
  | [] => false
  | c :: t => match_line (deriv c r) t
  end.

(** Character classes. *)
Definition dot (c : ascii) : bool := negb (Ascii.eqb c chr_nl).
Definition digit (c : ascii) : bool := in_range 48 57 c.
Definition upper_AZ (c : ascii) : bool := in_range 65 90 c.
Definition lower_az (c : ascii) : bool := in_range 97 122 c.
Definition space : ascii -> bool := isspace.

(** [\w]: the alphanumeric characters and the underscore. *)
Definition word (c : ascii) : bool :=
  digit c || upper_AZ c || lower_az c || (code c =? 95) ||
  (code c =? 170) || (code c =? 178) || (code c =? 179) || (code c =? 181) ||
  (code c =? 185) || (code c =? 186) || in_range 188 190 c ||
  in_range 192 214 c || in_range 216 246 c || in_range 248 255 c.

Definition either (p q : ascii -> bool) (c : ascii) : bool := p c || q c.
Definition other_than (a : ascii) (c : ascii) : bool := negb (Ascii.eqb c a).

(** [re.split(r'[.!?]+', x)]: the text between the maximal runs of
    terminators.  [in_run] tells that the previous character was one. *)
Definition terminator (c : ascii) : bool :=
  Ascii.eqb c "." || Ascii.eqb c "!" || Ascii.eqb c "?".

Fixpoint split_runs (in_run : bool) (x : str) : list str :=
  match x with
  | [] => [[]]
  | c :: t =>
      if terminator c
      then (if in_run then split_runs true t else [] :: split_runs true t)
      else cons_head c (split_runs false t)
  end.

Definition split_sentences (x : str) : list str := split_runs false x.

End Re.

Import Re.

(** ** Section Splitter *)

Record section : Type := mk_section { title : str; content : str }.

Definition header_patterns : list regex :=
  [ (* markdown headers: ^(#{1,6}\s+.+)$ *)
    Cat (Between 1 6 (Chr "#")) (Cat (Plus (Cls space)) (Plus (Cls dot)));
    (* numbered: ^(\d+\.[\d\.]*\s+.+)$ *)
    Cat (Plus (Cls digit))
      (Cat (Chr ".")
         (Cat (Star (Cls (either digit (Ascii.eqb "."))))
            (Cat (Plus (Cls space)) (Plus (Cls dot)))));
    (* all caps: ^([A-Z][A-Z\s]{5,}:?)$ *)
    Cat (Cls upper_AZ)
      (Cat (AtLeast 5 (Cls (either upper_AZ space))) (Opt (Chr ":")));
    (* title case with colon: ^([A-Z][a-z][\w\s]{3,}:)$ *)
    Cat (Cls upper_AZ)
      (Cat (Cls lower_az)
         (Cat (AtLeast 3 (Cls (either word space))) (Chr ":")));
    (* bold markdown: two stars, one or more characters other than a
       star, two stars, all between ^ and $ *)
    Cat (Chr "*") (Cat (Chr "*")
      (Cat (Plus (Cls (other_than "*"))) (Cat (Chr "*") (Chr "*"))));
    (* bold underscores: ^(__[^_]+__)$ *)
    Cat (Chr "_") (Cat (Chr "_")
      (Cat (Plus (Cls (other_than "_"))) (Cat (Chr "_") (Chr "_")))) ].

(** The first pattern that matches the line, as the inner [for] finds it. *)
Definition matching_pattern (line : str) : option regex :=
  find (fun pattern => match_line pattern line) header_patterns.

Definition is_header (line : str) : bool :=
  match matching_pattern line with Some _ => true | None => false end.

Definition add_to_content (sec : section) (x : str) : section :=
  {| title := title sec; content := content sec ++ x |}.

(** [sections.append(current_section)] under its guard. *)
Definition seal (sections : list section) (current_section : section)
    : list section :=
  if truthy (strip (content current_section))
  then sections ++ [current_section]
  else sections.

(** One iteration of the loop over the lines.  The state is
    [(sections, current_section)].  A line holds no newline, so the group
    of the second, single-line [re.match] is the whole line. *)
Definition split_step (st : list section * section) (raw : str)
    : list section * section :=
  let '(sections, current_section) := st in
  let line := strip raw in
  if negb (truthy line)
  then (sections, add_to_content current_section [chr_nl])
  else
    match matching_pattern line with
    | Some _ =>
        let header_text := line in
        (seal sections current_section,
         {| title := strip_chars (lit "# *_:") header_text; content := [] |})
    | None => (sections, add_to_content current_section (line ++ [chr_nl]))
    end.

Definition split_loop (text : str) : list section * section :=
  fold_left split_step (split chr_nl text)
    ([], {| title := lit "Introduction"; content := [] |}).

Definition split_by_headers (text : str) : list section :=
  let '(sections, current_section) := split_loop text in
  match seal sections current_section with
  | [] => [{| title := lit "Document Content"; content := text |}]
  | sections => sections
  end.

(** ** Content-Type Classifier *)

(** [a / b] for two non-negative ints, [b] not zero. *)
Definition ratio (a b : nat) : Q := Z.of_nat a # Pos.of_nat b.

(** [x > y] on the rationals, as a boolean. *)
Definition Qgtb (x y : Q) : bool := negb (Qle_bool x y).

Definition is_pipe_line (line : str) : bool :=
  contains chr_pipe line && (2 <=? count chr_pipe line).

Definition is_tab_line (line : str) : bool :=
  contains chr_tab line && (1 <=? count chr_tab line).

Definition pipe_ratio (lines : list str) : Q :=
  ratio (length (filter is_pipe_line lines)) (length lines).

Definition tab_ratio (lines : list str) : Q :=
  ratio (length (filter is_tab_line lines)) (length lines).

Fixpoint column_counts (lines : list str) : list nat :=
  match lines with
  | [] => []
  | line :: r =>
      if contains chr_pipe line then count chr_pipe line :: column_counts r
      else if contains chr_tab line then count chr_tab line :: column_counts r
      else column_counts r
  end.

(** [max(set(l), key=l.count)]: the first value of greatest frequency in
    the iteration order of the set, modelled as the order in which
    [nodup] lists the distinct values.  Only the frequency of the result is used, and it does not
    depend on that order ([count_most_common_count]). *)
Definition most_common (l : list nat) : nat :=
  match nodup Nat.eq_dec l with
  | [] => 0
  | a :: r =>
      fold_left
        (fun best x =>
           if count_occ Nat.eq_dec l best <? count_occ Nat.eq_dec l x
           then x else best)
        r a
  end.

Definition consistency (counts : list nat) : Q :=
  match counts with
  | [] => 0%Q
  | _ :: _ =>
      let most_common_count := most_common counts in
      ratio (count_occ Nat.eq_dec counts most_common_count) (length counts)
  end.

Definition table_keywords : list str :=
  [lit "table"; lit "column"; lit "row"; lit "premium"; lit "coverage";
   lit "benefit"; lit "amount"].

Definition keyword_present (content : str) : bool :=
  existsb (fun keyword => substring_in (lower keyword) (lower content))
    table_keywords.

Definition is_tabular_section (content : str) : bool :=
  let lines := split chr_nl content in
  if length lines <? 2 then false
  else
    Qgtb (pipe_ratio lines) (4 # 10) ||
    Qgtb (tab_ratio lines) (3 # 10) ||
    (Qgtb (consistency (column_counts lines)) (6 # 10) &&
     (1 <? length (column_counts lines))) ||
    (keyword_present content &&
     (Qgtb (pipe_ratio lines) (2 # 10) || Qgtb (tab_ratio lines) (2 # 10))).

(** ** Prose Chunker *)

(** [chunks.append(current_chunk.strip())] under [if current_chunk]. *)
Definition flush (chunks : list str) (current_chunk : str) : list str :=
  if truthy current_chunk then chunks ++ [strip current_chunk] else chunks.

(** [len(current_chunk) + len(piece) > max_chars] *)
Definition overflows (max_chars : Z) (current_chunk piece : str) : bool :=
  (max_chars <? Z.of_nat (length current_chunk + length piece))%Z.

(** [current_chunk += sep + piece if current_chunk else piece] *)
Definition extend (sep current_chunk piece : str) : str :=
  if truthy current_chunk then current_chunk ++ sep ++ piece else piece.

(** One iteration of the loop over the sentences of a long paragraph.
    The state is [(chunks, current_chunk)]. *)
Definition add_sentence (max_chars : Z) (st : list str * str) (raw : str)
    : list str * str :=
  let '(chunks, current_chunk) := st in
  let sentence := strip raw in
  if negb (truthy sentence) then st
  else if overflows max_chars current_chunk sentence
  then (flush chunks current_chunk, sentence)
  else (chunks, extend (lit " ") current_chunk sentence).

(** One iteration of the loop over the paragraphs. *)
Definition add_paragraph (max_chars : Z) (st : list str * str)
    (paragraph : str) : list str * str :=
  if (max_chars <? Z.of_nat (length paragraph))%Z
  then fold_left (add_sentence max_chars) (split_sentences paragraph) st
  else
    let '(chunks, current_chunk) := st in
    if overflows max_chars current_chunk paragraph
    then (flush chunks current_chunk, paragraph)
    else (chunks, extend [chr_nl; chr_nl] current_chunk paragraph).

Definition chunk_text_content (content : str) (max_chars : Z) : list str :=
  if (Z.of_nat (length content) <=? max_chars)%Z then [content]
  else
    let '(chunks, current_chunk) :=
      fold_left (add_paragraph max_chars) (split_nlnl content) ([], []) in
    flush chunks current_chunk.

(** ** Structure Analyzer *)

Record text_info : Type :=
  { paragraph_count : nat; sentence_count : nat; word_count : nat }.

Record table_info : Type :=
  { estimated_columns : nat; row_count : nat; has_header : bool }.

(** [x.split()]: the maximal runs of characters that are not whitespace.
    [cur] is the run being read, reversed. *)
Fixpoint split_whitespace (cur x : str) : list str :=
  match x with
  | [] => if truthy cur then [rev cur] else []
  | c :: t =>
      if isspace c
      then (if truthy cur then rev cur :: split_whitespace [] t
            else split_whitespace [] t)
      else split_whitespace (c :: cur) t
  end.

Definition analyze_text_structure (text : str) : text_info :=
  let paragraphs := split_nlnl text in
  let sentences := split_sentences text in
  let words := split_whitespace [] text in
  {| paragraph_count := length (filter non_blank paragraphs);
     sentence_count := length (filter non_blank sentences);
     word_count := length words |}.

Fixpoint table_column_counts (lines : list str) : list nat :=
  match lines with
  | [] => []
  | line :: r =>
      if contains chr_pipe line
      then (count chr_pipe line + 1) :: table_column_counts r
      else if contains chr_tab line
      then (count chr_tab line + 1) :: table_column_counts r
      else table_column_counts r
  end.

(** [a or b] on two ints. *)
Definition or_else (a b : nat) : nat := if a =? 0 then b else a.

Definition separators (line : str) : nat :=
  or_else (count chr_pipe line) (count chr_tab line).

Definition analyze_table_structure (table_text : str) : table_info :=
  let lines := non_empty_lines table_text in
  let counts := table_column_counts lines in
  {| estimated_columns :=
       match counts with [] => 1 | _ :: _ => list_max counts end;
     row_count := length lines;
     has_header :=
       match lines with
       | first :: second :: _ =>
           (separators first =? separators second) && (0 <? separators first)
       | _ => false
       end |}.

(** ** Chunk Assembler *)

(** Calls that can raise return an [option]; [None] is the exception. *)
Definition bind {A B : Type} (m : option A) (k : A -> option B) : option B :=
  match m with
  | Some a => k a
  | None => None
  end.

Notation "x <- m ;; k" := (bind m (fun x => k))
  (at level 61, m at next level, right associativity).

(** Run [f] on every element in order and collect the lists it returns;
    the first exception ends the run. *)
Fixpoint collect {A B : Type} (f : A -> option (list B)) (l : list A)
    : option (list B) :=
  match l with
  | [] => Some []
  | a :: r =>
      here <- f a ;;
      rest <- collect f r ;;
      Some (here ++ rest)
  end.

Inductive chunk_type : Type := text_type | table_type.

Inductive structure_info : Type :=
| TextInfo : text_info -> structure_info
| TableInfo : table_info -> structure_info.

Module Chunk.
Record t : Type :=
  { document_id : str;
    document_name : str;
    file_path : str;
    title : str;
    page_number : nat;
    section_index : nat;
    chunk_id : str;
    created_at : Z;
    text : str;
    type : chunk_type;
    info : structure_info }.
End Chunk.

(** [os.path.basename]: what follows the last slash. *)
Fixpoint basename (path : str) : str :=
  match path with
  | [] => []
  | c :: t => if contains "/"%char t then basename t
              else if Ascii.eqb c "/" then t else path
  end.

(** [str(n)] for an int. *)
Definition str_of_Z (n : Z) : str :=
  String.list_ascii_of_string
    (DecimalString.NilZero.string_of_int (Z.to_int n)).

(** The letter of the chunk id: [t] for table sub-chunks, [c] for text. *)
Definition type_letter (ty : chunk_type) : ascii :=
  match ty with
  | table_type => "t"%char
  | text_type => "c"%char
  end.

(** The f-string of the chunk id. *)
Definition format_chunk_id (document_id : str) (page_num section_idx : nat)
    (ty : chunk_type) (chunk_idx : nat) : str :=
  document_id ++ lit "_p" ++ str_of_nat page_num ++ lit "_s" ++
  str_of_nat section_idx ++ lit "_" ++ [type_letter ty] ++
  str_of_nat chunk_idx.

Section Assembler.

(** What the run takes from its environment: [hashlib.md5(x).hexdigest()],
    the clock reading that goes into the document id, and the reading taken
    while the section [section_idx] of the page [page_num] is assembled. *)
Variable md5_hexdigest : str -> str.
Variable time_of_id : Z.
Variable time_of_section : nat -> nat -> Z.

Definition generate_document_id (file_path : str) : str :=
  let file_name := basename file_path in
  let timestamp := str_of_Z time_of_id in
  let content := file_name ++ lit "_" ++ timestamp in
  firstn 12 (md5_hexdigest content).

(** [file_path] is [None] when the caller passes none. *)
Definition path_given (file_path : option str) : bool :=
  match file_path with
  | Some path => truthy path
  | None => false
  end.

Definition path_or_empty (file_path : option str) : str :=
  match file_path with
  | Some path => path
  | None => []
  end.

Definition document_id_of (file_path : option str) : str :=
  if path_given file_path
  then generate_document_id (path_or_empty file_path)
  else lit "doc_" ++ str_of_Z time_of_id.

Definition document_name_of (file_path : option str) : str :=
  if path_given file_path
  then basename (path_or_empty file_path)
  else lit "unknown_document".

Section Page.

Variable file_path : option str.

Definition make_chunk (page_num section_idx : nat) (sec : section)
    (ty : chunk_type) (chunk_idx : nat) (chunk_text : str) : Chunk.t :=
  {| Chunk.document_id := document_id_of file_path;
     Chunk.document_name := document_name_of file_path;
     Chunk.file_path := path_or_empty file_path;
     Chunk.title := title sec;
     Chunk.page_number := page_num;
     Chunk.section_index := section_idx;
     Chunk.chunk_id :=
       format_chunk_id (document_id_of file_path) page_num section_idx ty
         chunk_idx;
     Chunk.created_at := time_of_section page_num section_idx;
     Chunk.text := chunk_text;
     Chunk.type := ty;
     Chunk.info :=
       match ty with
       | table_type => TableInfo (analyze_table_structure chunk_text)
       | text_type => TextInfo (analyze_text_structure chunk_text)
       end |}.

Definition make_chunks (page_num section_idx : nat) (sec : section)
    (ty : chunk_type) (texts : list str) : list Chunk.t :=
  map (fun '(chunk_idx, chunk_text) =>
         make_chunk page_num section_idx sec ty chunk_idx chunk_text)
    (enumerate texts).

(** The body of the loop over the sections of one page. *)
Definition chunk_section (page_num : nat) (indexed : nat * section)
    : option (list Chunk.t) :=
  let '(section_idx, sec) := indexed in
  if is_tabular_section (content sec)
  then
    table_chunks <- chunk_table_content (content sec) 10 ;;
    Some (make_chunks page_num section_idx sec table_type table_chunks)
  else
    let text_chunks := chunk_text_content (content sec) 1000 in
    Some (make_chunks page_num section_idx sec text_type text_chunks).

(** The body of the loop over the pages; [doc_idx] counts from 0. *)
Definition chunk_page (indexed : nat * str) : option (list Chunk.t) :=
  let '(doc_idx, text) := indexed in
  let page_num := doc_idx + 1 in
  let sections := split_by_headers text in
  collect (chunk_section page_num) (enumerate sections).

(** [documents] holds the [text] of each page. *)
Definition chunk_document (documents : list str) : option (list Chunk.t) :=
  collect chunk_page (enumerate documents).

End Page.

End Assembler.

(** ** The classifier as the specification words it

    The specification computes the ratios over the non-blank lines only and
    asks, next to the consistency, for more than one distinct separator
    count.  [claimed_is_tabular] follows those words; it is compared with
    [is_tabular_section] below. *)

Definition claimed_is_tabular (content : str) : bool :=
  let lines := non_empty_lines content in
  let counts := column_counts lines in
  Qgtb (pipe_ratio lines) (4 # 10) ||
  Qgtb (tab_ratio lines) (3 # 10) ||
  (Qgtb (consistency counts) (6 # 10) &&
   (1 <? length (nodup Nat.eq_dec counts))) ||
  (keyword_present content &&
   (Qgtb (pipe_ratio lines) (2 # 10) || Qgtb (tab_ratio lines) (2 # 10))).

(** The greatest frequency of a value of the multiset. *)
Definition max_frequency (counts : list nat) : nat :=
  list_max (map (count_occ Nat.eq_dec counts) counts).

(** ** Lines of a page and of its sections *)

(** The lines of the page as the loop of [split_by_headers] sees them. *)
Definition stripped_lines (text : str) : list str :=
  map strip (split chr_nl text).

(** The non-blank lines of the page that match no header pattern. *)
Definition body_lines (text : str) : list str :=
  filter (fun line => negb (is_header line))
    (filter truthy (stripped_lines text)).

(** The contents of the sections, concatenated. *)
Definition all_content (sections : list section) : str :=
  concat (map content sections).

(** A content that is empty or ends with a newline. *)
Definition terminated (x : str) : Prop :=
  x = [] \/ exists x0, x = x0 ++ [chr_nl].

(** What one raw line adds to [body_lines]. *)
Definition body_of (raw : str) : list str :=
  filter (fun line => negb (is_header line)) (filter truthy [strip raw]).

(** The non-blank lines held by a state of the loop of [split_by_headers],
    and the invariant of that loop: the sealed sections are not blank and
    every content is terminated. *)
Definition loop_lines (st : list section * section) : list str :=
  non_empty_lines (all_content (fst st) ++ content (snd st)).

Definition sealed_ok (sec : section) : Prop :=
  terminated (content sec) /\ truthy (strip (content sec)) = true.

Definition loop_invariant (st : list section * section) : Prop :=
  Forall sealed_ok (fst st) /\ terminated (content (snd st)).

(** The specification's reading of the Section Splitter: every non-blank
    line of the page occurs once among the lines of the concatenated
    contents, surrounding whitespace aside. *)
Definition occurrences (line x : str) : nat :=
  count_occ (list_eq_dec ascii_dec) (map strip (split chr_nl x)) (strip line).

Definition recovers_every_line (text : str) : Prop :=
  forall line, In line (non_empty_lines text) ->
    occurrences line (all_content (split_by_headers text)) = 1.

(** ** Chunk identifiers *)

(** The chunk id is the f-string over the chunk's own fields and some
    sub-index. *)
Definition id_formed (c : Chunk.t) : Prop :=
  exists sub_index,
    Chunk.chunk_id c
    = format_chunk_id (Chunk.document_id c) (Chunk.page_number c)
        (Chunk.section_index c) (Chunk.type c) sub_index.

(** ** Sizes and terminators of prose chunks *)

Definition has_terminator (x : str) : bool := existsb terminator x.




(** The chunk is one sentence of a paragraph longer than [max_chars], and
    is itself longer than [max_chars]. *)
Definition single_sentence (max_chars : Z) (paragraphs : list str)
    (chunk : str) : Prop :=
  exists paragraph raw,
    In paragraph paragraphs /\
    (max_chars < Z.of_nat (length paragraph))%Z /\
    In raw (split_sentences paragraph) /\
    chunk = strip raw /\
    (max_chars < Z.of_nat (length chunk))%Z.

(** What the loop of [chunk_text_content] keeps: a piece is within the
    bound up to one separator, or is a single long sentence. *)
Definition sized (max_chars : Z) (paragraphs : list str) (x : str) : Prop :=
  (Z.of_nat (length x) <= max_chars + 2)%Z \/
  single_sentence max_chars paragraphs x.

(** The invariant of the loops of [chunk_text_content]: the sealed chunks
    are sized, and so is the accumulator unless it is empty. *)
Definition kept_sized (max_chars : Z) (paragraphs : list str)
    (st : list str * str) : Prop :=
  Forall (sized max_chars paragraphs) (fst st) /\
  (snd st = [] \/ sized max_chars paragraphs (snd st)).

(** The chunk belongs to the document [doc] and to its page [p]. *)
Definition placed_in (doc : str) (p : nat) (c : Chunk.t) : Prop :=
  Chunk.document_id c = doc /\ Chunk.page_number c = p /\ id_formed c.

(** ** Sample inputs *)

(** Two paragraphs of five characters each. *)
Definition two_paragraphs : str :=
  lit "aaaaa" ++ [chr_nl; chr_nl] ++ lit "bbbbb".

(** A page with two markdown headers, each followed by a line of text. *)
Definition two_sections : str :=
  join [chr_nl]
    [lit "# Title"; lit "Hello world."; lit ""; lit "## Sub";
     lit "More text here."].

(** One paragraph of 1500 characters without a sentence terminator. *)
Definition long_paragraph : str := repeat "x"%char 1500.

(** One paragraph of three sentences. *)
Definition three_sentences : str := lit "Hello there. This is it! Ok? yes".


(** A page of one header line and one line of text. *)
Definition title_and_hello : str :=
  lit "# Title" ++ [chr_nl] ++ lit "Hello".


(** A pipe-delimited table: one header line and [n] data rows. *)
Definition data_row (k : nat) : str :=
  lit "row" ++ str_of_nat k ++ lit "|value" ++ str_of_nat k.

Definition header_row : str := lit "name|value".

Definition data_rows (first last : nat) : list str :=
  map data_row (seq first (last + 1 - first)).

Definition table_25 : str :=
  join [chr_nl] (header_row :: data_rows 1 24).

(** Ten lines without a keyword; two of them hold one pipe each. *)
Definition ten_lines_two_pipes : str :=
  join [chr_nl]
    [lit "a|b"; lit "c|d"; lit "e"; lit "f"; lit "g"; lit "h"; lit "i";
     lit "j"; lit "k"; lit "l"].

(** ** Reading table chunks back *)



(** ** Sections and their titles *)

(** The page with every line stripped and followed by a newline. *)
Definition normalized (text : str) : str :=
  concat (map (fun line => line ++ [chr_nl]) (stripped_lines text)).

(** The characters that [split_by_headers] strips from a title. *)
Definition markup : str := lit "# *_:".

(** Where a title can come from: the initial accumulator, the fallback, or
    a header line of the page with its markup stripped. *)
Definition title_from (text title : str) : Prop :=
  title = lit "Introduction" \/
  title = lit "Document Content" \/
  exists line,
    In line (stripped_lines text) /\ is_header line = true /\
    title = strip_chars markup line.

(** Neither end of the text is a markup character. *)
Definition clean_ends (x : str) : Prop :=
  (forall c, hd_error x = Some c -> char_in markup c = false) /\
  (forall c, hd_error (rev x) = Some c -> char_in markup c = false).

(** ** Where a chunk comes from *)

(** The texts the chunkers return for a section, by its kind ([None] when
    the Table Chunker raises). *)
Definition section_texts (sec : section) : option (list str) :=
  if is_tabular_section (content sec)
  then chunk_table_content (content sec) 10
  else Some (chunk_text_content (content sec) 1000).

Definition section_type (sec : section) : chunk_type :=
  if is_tabular_section (content sec) then table_type else text_type.

(** The chunk [c] was cut from the section [sec]. *)
Definition cut_from (sec : section) (c : Chunk.t) : Prop :=
  Chunk.title c = title sec /\
  Chunk.type c = section_type sec /\
  exists texts, section_texts sec = Some texts /\ In (Chunk.text c) texts.

(** The chunk [c] comes from a section of a page of [documents], at the
    page number and the section index it carries. *)
Definition comes_from (documents : list str) (c : Chunk.t) : Prop :=
  1 <= Chunk.page_number c <= length documents /\
  exists text sec,
    nth_error documents (Chunk.page_number c - 1) = Some text /\
    nth_error (split_by_headers text) (Chunk.section_index c) = Some sec /\
    cut_from sec c.

(** The place of a chunk, and the order of the places: by page, then by
    section. *)
Definition place (c : Chunk.t) : nat * nat :=
  (Chunk.page_number c, Chunk.section_index c).

Definition place_le (a b : nat * nat) : Prop :=
  fst a < fst b \/ (fst a = fst b /\ snd a <= snd b).

(** ** Answer parsing (app/reason.py)

    [parse_llm_response] and [create_fallback_response] turn the text of
    the language model, or the retrieved chunks, into the answer record. *)

Module Reason.

Inductive section_name : Type :=
| answer_section | rationale_section | confidence_section.

(** The state of the loop of [parse_llm_response]. *)
Record parse_state : Type :=
  { answer : str;
    rationale : str;
    confidence : str;
    current_section : section_name }.

Record answer_data : Type :=
  { out_answer : str; out_rationale : str; out_confidence : str }.

(** [any(keyword in line.lower() for keyword in keywords)] *)
Definition mentions (keywords : list str) (line : str) : bool :=
  existsb (fun keyword => substring_in keyword (lower line)) keywords.

Definition rationale_keywords : list str :=
  [lit "reasoning"; lit "rationale"; lit "because"; lit "explanation"].

Definition confidence_keywords : list str :=
  [lit "confidence"; lit "certainty"].

(** [line.split(':', 1)[1]] for a line that holds a colon: what follows
    the first one. *)
Fixpoint after_colon (line : str) : str :=
  match line with
  | [] => []
  | c :: t => if Ascii.eqb c ":" then t else after_colon t
  end.

Definition default_rationale : str :=
  lit "Based on the provided document excerpts.".

(** The three values the confidence takes. *)
Definition levels : list str := [lit "High"; lit "Medium"; lit "Low"].

Definition read_confidence (conf_text : str) : str :=
  if substring_in (lit "high") conf_text then lit "High"
  else if substring_in (lit "low") conf_text then lit "Low"
  else lit "Medium".

(** One iteration of the loop over the lines. *)
Definition parse_step (st : parse_state) (raw : str) : parse_state :=
  let line := strip raw in
  if negb (truthy line) then st
  else if mentions rationale_keywords line then
    {| answer := answer st;
       rationale :=
         if contains ":"%char line
         then rationale st ++ strip (after_colon line) ++ lit " "
         else rationale st;
       confidence := confidence st;
       current_section := rationale_section |}
  else if mentions confidence_keywords line then
    {| answer := answer st;
       rationale := rationale st;
       confidence :=
         if contains ":"%char line
         then read_confidence (lower (strip (after_colon line)))
         else confidence st;
       current_section := confidence_section |}
  else
    match current_section st with
    | answer_section =>
        {| answer := answer st ++ line ++ lit " ";
           rationale := rationale st;
           confidence := confidence st;
           current_section := answer_section |}
    | rationale_section =>
        {| answer := answer st;
           rationale := rationale st ++ line ++ lit " ";
           confidence := confidence st;
           current_section := rationale_section |}
    | confidence_section => st
    end.

Definition parse_loop (response : str) : parse_state :=
  fold_left parse_step (split chr_nl (strip response))
    {| answer := []; rationale := []; confidence := lit "Medium";
       current_section := answer_section |}.

(** [a or b] on strings. *)
Definition or_default (a b : str) : str := if truthy a then a else b.

Definition parse_llm_response (response : str) : answer_data :=
  let st := parse_loop response in
  let '(answer, rationale) :=
    if negb (truthy (strip (answer st)))
    then (response, default_rationale)
    else (answer st, rationale st) in
  {| out_answer := strip answer;
     out_rationale := or_default (strip rationale) default_rationale;
     out_confidence := confidence st |}.

(** [create_fallback_response] reads the [text] of the retrieved chunks
    only; [texts] holds them in order.  The clause references are handed
    back as they are. *)
Definition fallback_answer (texts : list str) : str :=
  match texts with
  | [] =>
      lit "I couldn't find sufficient information in the document to answer this question."
  | _ :: _ =>
      let combined_text := join (lit " ") (map (firstn 200) (firstn 2 texts)) in
      lit "Based on the available information: " ++ combined_text ++ lit "..."
  end.

Definition fallback_rationale (texts : list str) : str :=
  match texts with
  | [] => lit "No relevant content was found for this query."
  | _ :: _ =>
      lit "This answer is derived from the most relevant sections of the document."
  end.

Definition create_fallback_response (texts : list str) : answer_data :=
  {| out_answer := fallback_answer texts;
     out_rationale := fallback_rationale texts;
     out_confidence := lit "Low" |}.

(** A line that holds none of the six section keywords. *)
Definition plain_line (line : str) : bool :=
  negb (mentions rationale_keywords line) &&
  negb (mentions confidence_keywords line).

(** The stripped, non-blank lines of the stripped response. *)
Definition response_lines (response : str) : list str :=
  filter truthy (map strip (split chr_nl (strip response))).

End Reason.

(** A text that starts and ends outside the class [p]. *)
Definition ends_outside (p : ascii -> bool) (x : str) : Prop :=
  (exists c t, x = c :: t /\ p c = false) /\
  (exists d u, x = u ++ [d] /\ p d = false).

(** ** Two statements of the specification, in its words *)

(** The three chunks the specification gives for the table of 25 lines:
    the header line with the data rows 1 to 9, then the header line before
    the data rows 10 to 19, then the header line before the data rows 20 to
    24. *)
Definition claimed_chunks_25 : list str :=
  [ join [chr_nl] (header_row :: data_rows 1 9);
    join [chr_nl] (header_row :: data_rows 10 19);
    join [chr_nl] (header_row :: data_rows 20 24) ].



(** * Properties *)

(** ** Strings *)

Lemma truthy_true (x : str) : truthy x = true <-> x <> [].
Proof.
  destruct x; simpl; split; intro H; congruence.
Qed.

Lemma contains_false_iff (c : ascii) (x : str) :
  contains c x = false <-> ~ In c x.
Proof.
  unfold contains. induction x as [|a x IH]; simpl.
  - split; [intros _ []|reflexivity].
  - rewrite orb_false_iff, IH. destruct (Ascii.eqb_spec c a) as [->|Hne].
    + split; [intros [? _]; discriminate|intros H; exfalso; apply H; now left].
    + split.
      * intros [_ H] [Heq|Hin]; [now apply Hne|now apply H].
      * intros H. split; [reflexivity|]. intros Hin. apply H. now right.
Qed.

Lemma split_not_nil (sep : ascii) (x : str) : split sep x <> [].
Proof.
  destruct x as [|c t]; simpl; [discriminate|].
  destruct (Ascii.eqb c sep); [discriminate|].
  destruct (split sep t); discriminate.
Qed.

(** A string without the separator is a single piece. *)
Lemma split_without_sep (sep : ascii) (x : str) :
  contains sep x = false -> split sep x = [x].
Proof.
  unfold contains. induction x as [|c t IH]; simpl; [reflexivity|].
  intros H. apply orb_false_iff in H as [Hc Ht].
  rewrite Ascii.eqb_sym, Hc, (IH Ht). reflexivity.
Qed.

(** The pieces of a split hold no separator. *)
Lemma split_pieces_without_sep (sep : ascii) (x : str) :
  Forall (fun piece => contains sep piece = false) (split sep x).
Proof.
  induction x as [|c t IH]; simpl.
  - constructor; [reflexivity|constructor].
  - destruct (Ascii.eqb c sep) eqn:E.
    + constructor; [reflexivity|exact IH].
    + destruct (split sep t) as [|h r]; simpl.
      * constructor; [|constructor]. simpl.
        now rewrite Ascii.eqb_sym, E.
      * inversion IH; subst. constructor; [|assumption].
        simpl. now rewrite Ascii.eqb_sym, E.
Qed.

(** Splitting at a separator splits the list of pieces. *)
Lemma split_app_sep (sep : ascii) (x y : str) :
  split sep (x ++ sep :: y) = split sep x ++ split sep y.
Proof.
  induction x as [|c t IH]; simpl.
  - now rewrite Ascii.eqb_refl.
  - rewrite IH. destruct (Ascii.eqb c sep); [reflexivity|].
    pose proof (split_not_nil sep t) as Hne.
    destruct (split sep t); [congruence|reflexivity].
Qed.

(** ** Table Chunker *)

Lemma slice_first_three {A : Type} (l : list A) : slice l 0 3 = firstn 3 l.
Proof.
  unfold slice, clamp_index.
  change (0 <? 0)%Z with false. change (3 <? 0)%Z with false. cbv iota.
  rewrite (Z.min_l 0) by lia. rewrite Z.sub_0_r.
  change (Z.to_nat 0) with 0. rewrite skipn_O.
  destruct (Z.min_spec 3 (Z.of_nat (length l))) as [[Hlt ->]|[Hle ->]].
  - reflexivity.
  - rewrite Nat2Z.id, firstn_all. symmetry. apply firstn_all2. lia.
Qed.

Lemma has_separator_truthy (line : str) :
  has_separator line = true -> truthy line = true.
Proof. destruct line; [discriminate|reflexivity]. Qed.

(** The header search returns the first line with a separator and the index
    that follows it. *)
Lemma find_header_first (ls : list str) (off : nat) (header : str) :
  find has_separator ls = Some header ->
  exists i, off <= i < off + length ls /\
    find_header (combine (seq off (length ls)) ls) = (header, Z.of_nat i + 1)%Z.
Proof.
  revert off. induction ls as [|line r IH]; intros off; simpl; [discriminate|].
  destruct (has_separator line) eqn:E.
  - intros [= ->]. exists off. split; [lia|reflexivity].
  - intros H. destruct (IH (S off) H) as (i & Hi & Heq).
    exists i. split; [lia|exact Heq].
Qed.

(** The elements of a range, by position. *)
Lemma range_nth (start stop step : Z) (idx : list Z) (k : nat) (i : Z) :
  range start stop step = Some idx ->
  nth_error idx k = Some i ->
  i = (start + Z.of_nat k * step)%Z /\
  ((0 < step)%Z \/ (stop < start)%Z).
Proof.
  unfold range. destruct (step =? 0)%Z; [discriminate|].
  intros [= <-]. rewrite nth_error_map, nth_error_seq.
  destruct (k <? _) eqn:E; [|discriminate].
  intros [= <-]. split; [reflexivity|].
  apply Nat.ltb_lt in E.
  destruct (0 <? step)%Z eqn:Es; [left; now apply Z.ltb_lt|].
  destruct (stop <? start)%Z eqn:Ed; [right; now apply Z.ltb_lt|].
  simpl in E. lia.
Qed.

(** C8: content of at most [max_rows] non-blank lines comes back as one
    chunk, equal to the content. *)
Theorem chunk_table_content_small (content : str) (max_rows : Z) :
  (Z.of_nat (length (non_empty_lines content)) <= max_rows)%Z ->
  chunk_table_content content max_rows = Some [content].
Proof.
  intros H. unfold chunk_table_content.
  apply Z.leb_le in H. now rewrite H.
Qed.

Lemma chunk_table_content_small_witness :
  chunk_table_content (lit "a|b" ++ [chr_nl] ++ lit "c|d") 10
  = Some [lit "a|b" ++ [chr_nl] ++ lit "c|d"].
Proof.
  apply chunk_table_content_small. vm_compute. discriminate.
Defined.

(** C7: with more than [max_rows] non-blank lines and a header line among
    the first three of them, every chunk after the first begins with that
    header line.  The call raises only for [max_rows = 0]. *)
Theorem chunk_table_content_header (content : str) (max_rows : Z)
    (header : str) :
  (max_rows < Z.of_nat (length (non_empty_lines content)))%Z ->
  find has_separator (firstn 3 (non_empty_lines content)) = Some header ->
  match chunk_table_content content max_rows with
  | Some chunks =>
      forall k chunk, 1 <= k -> nth_error chunks k = Some chunk ->
        exists rest, chunk = header ++ [chr_nl] ++ rest
  | None => max_rows = 0%Z
  end.
Proof.
  intros Hrows Hfind. unfold chunk_table_content.
  set (lines := non_empty_lines content) in *.
  apply Z.ltb_lt in Hrows. rewrite Z.leb_antisym, Hrows. simpl.
  unfold header_of, enumerate. rewrite slice_first_three.
  destruct (find_header_first _ 0 _ Hfind) as (i & Hi & ->).
  assert (Hsep : has_separator header = true).
  { apply find_some in Hfind. tauto. }
  assert (Hlen : i < length lines).
  { rewrite length_firstn in Hi. lia. }
  destruct (range _ _ max_rows) as [idx|] eqn:Hrange.
  - intros k chunk Hk Hnth.
    rewrite nth_error_map in Hnth.
    destruct (nth_error idx k) as [j|] eqn:Hj; [|discriminate].
    injection Hnth as <-.
    destruct (range_nth _ _ _ _ _ _ Hrange Hj) as [-> Hdir].
    unfold table_chunk. rewrite (has_separator_truthy _ Hsep).
    destruct Hdir as [Hpos|Hneg]; [|lia].
    assert (Hlt : (Z.of_nat i + 1 <? Z.of_nat i + 1 + Z.of_nat k * max_rows)%Z
                  = true) by (apply Z.ltb_lt; nia).
    rewrite Hlt. simpl. eauto.
  - unfold range in Hrange.
    destruct (max_rows =? 0)%Z eqn:E0; [now apply Z.eqb_eq|discriminate].
Qed.

Lemma chunk_table_content_header_witness :
  match chunk_table_content table_25 10 with
  | Some chunks =>
      forall k chunk, 1 <= k -> nth_error chunks k = Some chunk ->
        exists rest, chunk = header_row ++ [chr_nl] ++ rest
  | None => 10%Z = 0%Z
  end.
Proof.
  apply chunk_table_content_header.
  - vm_compute. reflexivity.
  - vm_compute. reflexivity.
Defined.

(** C3, as the code has it: on the table of one header line and 24 data
    rows, with [max_rows = 10], the code returns three chunks: the data
    rows 1 to 10 without the header line, then the header line before the
    data rows 11 to 20, then the header line before the data rows 21 to
    24. *)
Theorem chunk_table_content_25_rows :
  chunk_table_content table_25 10 =
  Some [ join [chr_nl] (data_rows 1 10);
         join [chr_nl] (header_row :: data_rows 11 20);
         join [chr_nl] (header_row :: data_rows 21 24) ].
Proof. vm_compute. reflexivity. Qed.

(** C3, as stated, fails: the chunks of that table are not the header line
    with the data rows 1 to 9, the header line before the data rows 10 to
    19 and the header line before the data rows 20 to 24. *)
Lemma chunk_table_content_25_rows_not_as_claimed :
  chunk_table_content table_25 10 <> Some claimed_chunks_25.
Proof. vm_compute. discriminate. Qed.

(** ** Content-Type Classifier *)

(** [x > p/q] on a quotient of two naturals, by cross-multiplication. *)
Lemma Qgtb_ratio (a b : nat) (p : Z) (q : positive) :
  0 < b ->
  Qgtb (ratio a b) (p # q) = true <->
  (p * Z.of_nat b < Z.of_nat a * Z.pos q)%Z.
Proof.
  intros Hb. unfold Qgtb, ratio.
  rewrite negb_true_iff. unfold Qle_bool. simpl.
  rewrite Z.leb_gt.
  assert (Z.pos (Pos.of_nat b) = Z.of_nat b) as ->.
  { rewrite <- (Nat2Pos.id b) at 2 by lia. now rewrite positive_nat_Z. }
  reflexivity.
Qed.

Lemma count_occ_fold_best (l r : list nat) (a : nat) :
  let best :=
    fold_left
      (fun best x =>
         if count_occ Nat.eq_dec l best <? count_occ Nat.eq_dec l x
         then x else best) r a in
  (best = a \/ In best r) /\
  count_occ Nat.eq_dec l a <= count_occ Nat.eq_dec l best /\
  forall x, In x r -> count_occ Nat.eq_dec l x <= count_occ Nat.eq_dec l best.
Proof.
  revert a. induction r as [|y r IH]; intros a; simpl.
  - repeat split; [now left|lia|tauto].
  - destruct (count_occ Nat.eq_dec l a <? count_occ Nat.eq_dec l y) eqn:E.
    + apply Nat.ltb_lt in E. destruct (IH y) as (Hin & Hge & Hall).
      repeat split.
      * destruct Hin as [->|Hin]; right; [now left|now right].
      * lia.
      * intros x [<-|Hx]; [exact Hge|now apply Hall].
    + apply Nat.ltb_ge in E. destruct (IH a) as (Hin & Hge & Hall).
      repeat split.
      * destruct Hin as [->|Hin]; [now left|right; now right].
      * exact Hge.
      * intros x [<-|Hx]; [lia|now apply Hall].
Qed.

Lemma list_max_map_le {A : Type} (f : A -> nat) (l : list A) (n : nat) :
  (forall x, In x l -> f x <= n) -> list_max (map f l) <= n.
Proof.
  intros H. apply list_max_le, Forall_forall.
  intros y Hy. apply in_map_iff in Hy as (x & <- & Hx). now apply H.
Qed.

Lemma list_max_map_ge {A : Type} (f : A -> nat) (l : list A) (x : A) :
  In x l -> f x <= list_max (map f l).
Proof.
  intros Hx.
  pose proof (proj1 (list_max_le (map f l) (list_max (map f l)))
                (Nat.le_refl _)) as H.
  rewrite Forall_forall in H. apply H, in_map. exact Hx.
Qed.

(** The value [max(set(l), key=l.count)] picks has the greatest frequency,
    whatever the order in which the set is walked. *)
Lemma count_most_common_count (counts : list nat) :
  count_occ Nat.eq_dec counts (most_common counts) = max_frequency counts.
Proof.
  unfold most_common, max_frequency.
  destruct (nodup Nat.eq_dec counts) as [|a r] eqn:En.
  - destruct counts as [|c cs]; [reflexivity|].
    assert (In c (nodup Nat.eq_dec (c :: cs)))
      by (apply nodup_In; now left).
    rewrite En in H. destruct H.
  - pose proof (count_occ_fold_best counts r a) as (Hin & Hge & Hall).
    set (best := fold_left _ r a) in *.
    apply Nat.le_antisymm.
    + apply list_max_map_ge.
      apply (nodup_In Nat.eq_dec). rewrite En.
      destruct Hin as [->|Hin]; [now left|now right].
    + apply list_max_map_le. intros x Hx.
      apply (nodup_In Nat.eq_dec) in Hx. rewrite En in Hx.
      destruct Hx as [<-|Hx]; [exact Hge|now apply Hall].
Qed.

(** C9: content without a newline is never classified as tabular. *)
Theorem is_tabular_section_one_line (content : str) :
  contains chr_nl content = false ->
  is_tabular_section content = false.
Proof.
  intros H. unfold is_tabular_section.
  now rewrite (split_without_sep _ _ H).
Qed.

Lemma is_tabular_section_one_line_witness :
  is_tabular_section (lit "premium | amount | table | row") = false.
Proof.
  apply is_tabular_section_one_line. vm_compute. reflexivity.
Defined.

(** C2, as the code has it: the content is tabular iff it has at least two
    lines, blank ones counted, and, with the ratios taken over all of them,
    one of the four tests passes; the third asks for more than one recorded
    separator count, not for more than one distinct value.  The consistency
    is the greatest frequency over the number of recorded counts. *)
Theorem is_tabular_section_iff (content : str) :
  let lines := split chr_nl content in
  let counts := column_counts lines in
  let pipe_lines := length (filter is_pipe_line lines) in
  let tab_lines := length (filter is_tab_line lines) in
  is_tabular_section content = true <->
  2 <= length lines /\
  ( (4 # 10 < ratio pipe_lines (length lines))%Q \/
    (3 # 10 < ratio tab_lines (length lines))%Q \/
    ((6 # 10 < ratio (max_frequency counts) (length counts))%Q /\
     1 < length counts) \/
    (keyword_present content = true /\
     ((2 # 10 < ratio pipe_lines (length lines))%Q \/
      (2 # 10 < ratio tab_lines (length lines))%Q)) ).
Proof.
  intros lines counts pipe_lines tab_lines.
  unfold is_tabular_section. fold lines. fold counts.
  destruct (length lines <? 2) eqn:E2.
  - apply Nat.ltb_lt in E2. split; [discriminate|lia].
  - apply Nat.ltb_ge in E2.
    assert (Hgt : forall x y, Qgtb x y = true <-> (y < x)%Q).
    { intros x y. unfold Qgtb. rewrite negb_true_iff.
      rewrite <- not_true_iff_false, Qle_bool_iff. split.
      - apply Qnot_le_lt.
      - apply Qlt_not_le. }
    assert (Hcons : 1 < length counts ->
              consistency counts
              = ratio (max_frequency counts) (length counts)).
    { intros Hc. unfold consistency.
      destruct counts; [simpl in Hc; lia|].
      now rewrite count_most_common_count. }
    rewrite !orb_true_iff, !andb_true_iff, !orb_true_iff.
    unfold pipe_ratio, tab_ratio. fold pipe_lines. fold tab_lines.
    rewrite !Hgt, Nat.ltb_lt.
    split.
    + intros H. split; [exact E2|].
      destruct H as [[[H|H]|[H1 H2]]|[H1 H2]]; [tauto|tauto| |tauto].
      right; right; left. rewrite <- (Hcons H2). tauto.
    + intros [_ H].
      destruct H as [H|[H|[[H1 H2]|[H1 H2]]]]; [tauto|tauto| |tauto].
      left; right. rewrite (Hcons H2). tauto.
Qed.

(** C2, as stated, fails: two lines with one pipe each among ten lines give
    a consistency of 1 over two equal counts, which the code accepts, while
    no ratio passes a threshold and the counts hold one distinct value. *)
Lemma is_tabular_section_not_as_claimed :
  is_tabular_section ten_lines_two_pipes = true /\
  claimed_is_tabular ten_lines_two_pipes = false.
Proof. vm_compute. split; reflexivity. Qed.

(** ** Stripping *)

Section Strip.

Variable p : ascii -> bool.

Lemma lstrip_by_incl (x : str) : incl (lstrip_by p x) x.
Proof.
  induction x as [|c t IH]; simpl; [apply incl_refl|].
  destruct (p c); [now apply incl_tl|apply incl_refl].
Qed.

Lemma lstrip_by_length (x : str) : length (lstrip_by p x) <= length x.
Proof.
  induction x as [|c t IH]; simpl; [lia|].
  destruct (p c); simpl; lia.
Qed.

Lemma lstrip_by_head (x : str) (c : ascii) (t : str) :
  lstrip_by p x = c :: t -> p c = false.
Proof.
  induction x as [|a x IH]; simpl; [discriminate|].
  destruct (p a) eqn:E; [exact IH|]. now intros [= <- _].
Qed.

Lemma lstrip_by_nil (x : str) :
  lstrip_by p x = [] <-> forallb p x = true.
Proof.
  induction x as [|a x IH]; simpl; [tauto|].
  destruct (p a); simpl; [exact IH|]. split; discriminate.
Qed.

Lemma lstrip_by_fixed (c : ascii) (t : str) :
  p c = false -> lstrip_by p (c :: t) = c :: t.
Proof. intros H. simpl. now rewrite H. Qed.

Lemma lstrip_by_keeps_last (a : str) (c : ascii) :
  p c = false -> exists u, lstrip_by p (a ++ [c]) = u ++ [c].
Proof.
  intros Hc. induction a as [|b a IH]; simpl.
  - rewrite Hc. now exists [].
  - destruct (p b); [exact IH|]. now exists (b :: a).
Qed.

Lemma rstrip_by_incl (x : str) : incl (rstrip_by p x) x.
Proof.
  unfold rstrip_by. intros c Hc. apply in_rev in Hc.
  apply lstrip_by_incl in Hc. now apply in_rev.
Qed.

Lemma strip_by_incl (x : str) : incl (strip_by p x) x.
Proof.
  unfold strip_by. intros c Hc.
  now apply lstrip_by_incl, rstrip_by_incl.
Qed.

Lemma strip_by_length (x : str) : length (strip_by p x) <= length x.
Proof.
  unfold strip_by, rstrip_by. rewrite length_rev.
  pose proof (lstrip_by_length (rev (lstrip_by p x))).
  rewrite length_rev in H. pose proof (lstrip_by_length x). lia.
Qed.

(** A stripped string is empty or starts and ends outside the class. *)
Lemma strip_by_ends (x : str) :
  strip_by p x = [] \/
  exists c m d, p c = false /\ p d = false /\
    (strip_by p x = [c] /\ c = d \/ strip_by p x = c :: m ++ [d]).
Proof.
  unfold strip_by, rstrip_by.
  destruct (lstrip_by p x) as [|c t] eqn:E; [now left|].
  pose proof (lstrip_by_head _ _ _ E) as Hc. right.
  destruct (lstrip_by_keeps_last (rev t) _ Hc) as (w & Hw).
  change (rev (c :: t)) with (rev t ++ [c]).
  rewrite Hw, rev_app_distr. simpl.
  destruct w as [|e w'].
  - exists c, [], c. auto.
  - simpl in Hw. apply lstrip_by_head in Hw.
    simpl. exists c, (rev w'), e. auto.
Qed.

Lemma strip_by_truthy (x : str) :
  truthy (strip_by p x) = negb (forallb p x).
Proof.
  destruct (forallb p x) eqn:E; simpl.
  - unfold strip_by. apply lstrip_by_nil in E. now rewrite E.
  - destruct (strip_by_ends x) as [H|(c & m & d & _ & _ & [[-> _]| ->])];
      try reflexivity.
    exfalso. unfold strip_by, rstrip_by in H.
    destruct (lstrip_by p x) as [|c t] eqn:El.
    + apply lstrip_by_nil in El. congruence.
    + pose proof (lstrip_by_head _ _ _ El) as Hc.
      destruct (lstrip_by_keeps_last (rev t) _ Hc) as (w & Hw).
      simpl in H. rewrite Hw, rev_app_distr in H. discriminate.
Qed.

Lemma rstrip_by_fixed (m : str) (d : ascii) :
  p d = false -> rstrip_by p (m ++ [d]) = m ++ [d].
Proof.
  intros Hd. unfold rstrip_by. rewrite rev_app_distr. simpl.
  rewrite Hd. simpl. now rewrite rev_involutive.
Qed.

Lemma strip_by_idempotent (x : str) :
  strip_by p (strip_by p x) = strip_by p x.
Proof.
  destruct (strip_by_ends x) as [->|(c & m & d & Hc & Hd & [[-> _]| ->])].
  - reflexivity.
  - unfold strip_by. rewrite (lstrip_by_fixed _ _ Hc).
    apply (rstrip_by_fixed [] _ Hc).
  - unfold strip_by. rewrite (lstrip_by_fixed _ _ Hc).
    apply (rstrip_by_fixed (c :: m) _ Hd).
Qed.

End Strip.

Lemma non_blank_strip (raw : str) :
  non_blank (strip raw) = truthy (strip raw).
Proof. unfold non_blank, strip. now rewrite strip_by_idempotent. Qed.

Lemma non_blank_spec (x : str) : non_blank x = negb (forallb isspace x).
Proof. apply strip_by_truthy. Qed.

Lemma strip_without (c : ascii) (x : str) :
  contains c x = false -> contains c (strip x) = false.
Proof.
  rewrite !contains_false_iff. intros H Hin. apply H.
  now apply (strip_by_incl isspace).
Qed.

(** ** Section Splitter *)

Lemma non_empty_lines_nil : non_empty_lines [] = [].
Proof. reflexivity. Qed.

Lemma terminated_add (x y : str) : terminated (x ++ y ++ [chr_nl]).
Proof. right. exists (x ++ y). now rewrite <- app_assoc. Qed.

Lemma terminated_app (x y : str) :
  terminated x -> terminated y -> terminated (x ++ y).
Proof.
  intros Hx [->|(y0 & ->)].
  - now rewrite app_nil_r.
  - apply terminated_add.
Qed.

(** After a terminated content the lines start afresh. *)
Lemma non_empty_lines_app (x y : str) :
  terminated x ->
  non_empty_lines (x ++ y) = non_empty_lines x ++ non_empty_lines y.
Proof.
  unfold non_empty_lines. intros [->|(x0 & ->)]; [reflexivity|].
  rewrite <- app_assoc. simpl.
  rewrite !split_app_sep, !filter_app. simpl.
  now rewrite app_nil_r.
Qed.

Lemma split_pieces_incl (sep : ascii) (x piece : str) :
  In piece (split sep x) -> incl piece x.
Proof.
  revert piece. induction x as [|c t IH]; intros piece; simpl.
  - intros [<-|[]]. apply incl_refl.
  - destruct (Ascii.eqb c sep).
    + intros [<-|H]; [intros a []|]. apply incl_tl. now apply IH.
    + destruct (split sep t) as [|h r]; simpl.
      * intros [<-|[]]. intros a [<-|[]]. now left.
      * intros [<-|H].
        -- intros a [<-|Ha]; [now left|]. right.
           apply (IH h); [now left|exact Ha].
        -- apply incl_tl. apply IH. now right.
Qed.

Lemma split_covers (sep c : ascii) (x : str) :
  In c x -> c <> sep -> exists piece, In piece (split sep x) /\ In c piece.
Proof.
  intros Hin Hne. induction x as [|a t IH]; [destruct Hin|].
  simpl. destruct (Ascii.eqb_spec a sep) as [->|Ha].
  - destruct Hin as [->|Hin]; [congruence|].
    destruct (IH Hin) as (piece & Hp & Hc). exists piece. split; [now right|exact Hc].
  - pose proof (split_not_nil sep t) as Hnn.
    destruct (split sep t) as [|h r]; [congruence|]. simpl.
    destruct Hin as [->|Hin].
    + exists (c :: h). split; now left.
    + destruct (IH Hin) as (piece & [<-|Hp] & Hc).
      * exists (a :: h). split; [now left|now right].
      * exists piece. split; [now right|exact Hc].
Qed.

Lemma filter_none {A : Type} (f : A -> bool) (l : list A) :
  (forall a, In a l -> f a = false) -> filter f l = [].
Proof.
  induction l as [|a l IH]; simpl; [reflexivity|]. intros H.
  rewrite (H a) by now left. apply IH. intros b Hb. apply H. now right.
Qed.

(** Blank content has no non-blank line, and the converse. *)
Lemma non_empty_lines_blank (x : str) :
  truthy (strip x) = false -> non_empty_lines x = [].
Proof.
  intros H. change (non_blank x = false) in H.
  rewrite non_blank_spec, negb_false_iff, forallb_forall in H.
  unfold non_empty_lines.
  apply filter_none.
  intros piece Hp. rewrite non_blank_spec, negb_false_iff.
  apply forallb_forall. intros c Hc. apply H.
  exact (split_pieces_incl _ _ _ Hp _ Hc).
Qed.

Lemma non_empty_lines_non_blank (x : str) :
  truthy (strip x) = true -> non_empty_lines x <> [].
Proof.
  intros H. change (non_blank x = true) in H.
  rewrite non_blank_spec, negb_true_iff in H.
  assert (Hex : exists c, In c x /\ isspace c = false).
  { clear -H. induction x as [|a t IH]; [discriminate|].
    simpl in H. destruct (isspace a) eqn:Ea.
    - destruct (IH H) as (c & Hc & Hs). exists c. split; [now right|exact Hs].
    - exists a. split; [now left|exact Ea]. }
  destruct Hex as (c & Hc & Hs).
  assert (Hne : c <> chr_nl) by (intros ->; discriminate).
  destruct (split_covers _ _ _ Hc Hne) as (piece & Hp & Hcp).
  unfold non_empty_lines. intros Hnil.
  assert (Hin : In piece (filter non_blank (split chr_nl x))).
  { apply filter_In. split; [exact Hp|].
    rewrite non_blank_spec, negb_true_iff.
    apply not_true_is_false. intros Hall.
    rewrite forallb_forall in Hall. rewrite (Hall c Hcp) in Hs. discriminate. }
  rewrite Hnil in Hin. destruct Hin.
Qed.

Lemma all_content_app (a b : list section) :
  all_content (a ++ b) = all_content a ++ all_content b.
Proof. unfold all_content. now rewrite map_app, concat_app. Qed.

Lemma all_content_terminated (secs : list section) :
  Forall sealed_ok secs -> terminated (all_content secs).
Proof.
  induction 1 as [|sec secs [Ht _] _ IH]; [now left|].
  apply terminated_app; assumption.
Qed.

Lemma seal_invariant (secs : list section) (cur : section) :
  loop_invariant (secs, cur) -> Forall sealed_ok (seal secs cur).
Proof.
  intros [Hs Hc]. unfold seal. simpl in *.
  destruct (truthy (strip (content cur))) eqn:E; [|exact Hs].
  apply Forall_app. split; [exact Hs|]. constructor; [|constructor].
  split; assumption.
Qed.

(** Sealing, or dropping a blank accumulator, keeps the non-blank lines. *)
Lemma seal_lines (secs : list section) (cur : section) :
  loop_invariant (secs, cur) ->
  non_empty_lines (all_content (seal secs cur)) = loop_lines (secs, cur).
Proof.
  intros [Hs Hc]. unfold seal, loop_lines. simpl in *.
  destruct (truthy (strip (content cur))) eqn:E.
  - rewrite all_content_app. unfold all_content at 2. simpl.
    now rewrite app_nil_r.
  - rewrite non_empty_lines_app by now apply all_content_terminated.
    now rewrite (non_empty_lines_blank _ E), app_nil_r.
Qed.

Lemma is_header_spec (line : str) :
  is_header line = match matching_pattern line with
                   | Some _ => true
                   | None => false
                   end.
Proof. reflexivity. Qed.

(** One iteration adds the line to the non-blank lines exactly when it is
    neither blank nor a header. *)
Lemma split_step_lines (st : list section * section) (raw : str) :
  contains chr_nl raw = false ->
  loop_invariant st ->
  loop_invariant (split_step st raw) /\
  loop_lines (split_step st raw) = loop_lines st ++ body_of raw.
Proof.
  destruct st as [secs cur]. intros Hraw Hinv.
  pose proof Hinv as [Hs Hc]. simpl in Hs, Hc.
  pose proof (all_content_terminated _ Hs) as Ha.
  unfold split_step, body_of. simpl filter at 2.
  destruct (truthy (strip raw)) eqn:Et; simpl negb; cbv iota.
  - simpl filter. rewrite is_header_spec.
    destruct (matching_pattern (strip raw)) eqn:Em; simpl.
    + split.
      * split; [now apply seal_invariant|now left].
      * unfold loop_lines at 1. simpl.
        now rewrite app_nil_r, seal_lines, app_nil_r.
    + split.
      * split; [exact Hs|apply terminated_add].
      * unfold loop_lines. simpl. rewrite app_assoc.
        rewrite non_empty_lines_app by now apply terminated_app.
        f_equal. unfold non_empty_lines.
        rewrite split_app_sep, split_without_sep
          by now apply strip_without.
        simpl. now rewrite non_blank_strip, Et.
  - split.
    + split; [exact Hs|]. simpl. right. now exists (content cur).
    + unfold loop_lines. simpl. rewrite app_assoc.
      rewrite non_empty_lines_app by now apply terminated_app.
      reflexivity.
Qed.

Lemma split_loop_lines (raws : list str) (st : list section * section) :
  Forall (fun raw => contains chr_nl raw = false) raws ->
  loop_invariant st ->
  loop_invariant (fold_left split_step raws st) /\
  loop_lines (fold_left split_step raws st)
  = loop_lines st ++ flat_map body_of raws.
Proof.
  intros Hraws. revert st.
  induction Hraws as [|raw raws Hraw _ IH]; intros st Hinv; simpl.
  - now rewrite app_nil_r.
  - destruct (split_step_lines st raw Hraw Hinv) as [Hinv' Hl].
    destruct (IH _ Hinv') as [Hinv'' Hl'].
    split; [exact Hinv''|]. now rewrite Hl', Hl, app_assoc.
Qed.

Lemma body_lines_flat_map (text : str) :
  body_lines text = flat_map body_of (split chr_nl text).
Proof.
  unfold body_lines, stripped_lines.
  induction (split chr_nl text) as [|raw raws IH]; [reflexivity|].
  simpl. unfold body_of at 1. simpl.
  destruct (truthy (strip raw)); simpl.
  - destruct (is_header (strip raw)); simpl; now rewrite IH.
  - exact IH.
Qed.

(** C5, as the code has it: the non-blank lines of the concatenated
    contents are the non-blank lines of the page that match no header
    pattern, stripped, in order and once each.  When the page has no such
    line, the single section [Document Content] holds the page as it
    is. *)
Theorem split_by_headers_lines (text : str) :
  match body_lines text with
  | [] =>
      split_by_headers text
      = [{| title := lit "Document Content"; content := text |}]
  | _ :: _ =>
      non_empty_lines (all_content (split_by_headers text)) = body_lines text
  end.
Proof.
  assert (Hinit : loop_invariant
            (@nil section, {| title := lit "Introduction"; content := [] |})).
  { split; [constructor|now left]. }
  destruct (split_loop_lines (split chr_nl text) _
              (split_pieces_without_sep chr_nl text) Hinit) as [Hinv Hl].
  rewrite <- body_lines_flat_map in Hl.
  change (loop_lines _ ++ body_lines text) with (body_lines text) in Hl.
  unfold split_by_headers, split_loop.
  destruct (fold_left split_step _ _) as [secs cur] eqn:Ef.
  rewrite <- (seal_lines _ _ Hinv) in Hl.
  pose proof (seal_invariant _ _ Hinv) as Hok.
  destruct (seal secs cur) as [|sec rest] eqn:Es.
  - rewrite <- Hl. reflexivity.
  - destruct (body_lines text) as [|line r] eqn:Eb; [exfalso|exact Hl].
    inversion Hok as [|? ? [Ht Hn] _]; subst.
    unfold all_content in Hl. simpl in Hl.
    rewrite non_empty_lines_app in Hl by exact Ht.
    apply app_eq_nil in Hl as [Hl _].
    exact (non_empty_lines_non_blank _ Hn Hl).
Qed.

(** C5, as stated, fails: the header line of the page is a non-blank line
    of the input and is in no content. *)
Lemma split_by_headers_drops_header :
  ~ recovers_every_line title_and_hello.
Proof.
  intros H. specialize (H (lit "# Title")).
  assert (Hin : In (lit "# Title") (non_empty_lines title_and_hello))
    by (vm_compute; now left).
  specialize (H Hin). vm_compute in H. discriminate.
Qed.

(** ** Chunk identifiers *)

Lemma to_uint_not_nil (n : nat) : Nat.to_uint n <> Decimal.Nil.
Proof.
  rewrite <- (DecimalNat.Unsigned.of_to n), DecimalNat.Unsigned.to_of.
  apply DecimalFacts.unorm_nonnil.
Qed.

Lemma list_ascii_of_string_inj (a b : String.string) :
  String.list_ascii_of_string a = String.list_ascii_of_string b -> a = b.
Proof.
  intros H. rewrite <- (String.string_of_list_ascii_of_string a),
    <- (String.string_of_list_ascii_of_string b). now rewrite H.
Qed.

Lemma str_of_nat_inj (n m : nat) : str_of_nat n = str_of_nat m -> n = m.
Proof.
  unfold str_of_nat. intros H. apply list_ascii_of_string_inj in H.
  apply (f_equal DecimalString.NilZero.uint_of_string) in H.
  rewrite !DecimalString.NilZero.usu in H by apply to_uint_not_nil.
  injection H as H. now apply DecimalNat.Unsigned.to_uint_inj.
Qed.

Lemma string_of_uint_digits (d : Decimal.uint) :
  Forall (fun c => digit c = true)
    (String.list_ascii_of_string (DecimalString.NilEmpty.string_of_uint d)).
Proof.
  induction d; simpl; constructor; try reflexivity; assumption.
Qed.

Lemma str_of_nat_digits (n : nat) :
  Forall (fun c => digit c = true) (str_of_nat n).
Proof.
  unfold str_of_nat, DecimalString.NilZero.string_of_uint.
  destruct (Nat.to_uint n) eqn:E; try (rewrite <- E);
    try apply string_of_uint_digits.
  simpl. constructor; [reflexivity|constructor].
Qed.

(** Two runs of digits, each followed by the same non-digit, are equal as
    soon as the whole texts are. *)
Lemma digits_then (x : ascii) (a a' r r' : str) :
  digit x = false ->
  Forall (fun c => digit c = true) a ->
  Forall (fun c => digit c = true) a' ->
  a ++ x :: r = a' ++ x :: r' -> a = a' /\ r = r'.
Proof.
  intros Hx Ha. revert a'.
  induction Ha as [|c a Hc _ IH]; intros a' Ha' H.
  - destruct Ha' as [|c' a' Hc' _]; simpl in H.
    + now injection H.
    + injection H as -> _. congruence.
  - destruct Ha' as [|c' a' Hc' Ha']; simpl in H.
    + injection H as <- _. congruence.
    + injection H as -> H. destruct (IH _ Ha' H) as [-> ->]. auto.
Qed.

Lemma type_letter_inj (a b : chunk_type) :
  type_letter a = type_letter b -> a = b.
Proof. destruct a, b; simpl; intros H; congruence. Qed.

(** The chunk id determines the page, the section, the kind and the
    sub-index. *)
Lemma format_chunk_id_inj (doc : str) (p p' s s' : nat)
    (ty ty' : chunk_type) (i i' : nat) :
  format_chunk_id doc p s ty i = format_chunk_id doc p' s' ty' i' ->
  p = p' /\ s = s' /\ ty = ty' /\ i = i'.
Proof.
  unfold format_chunk_id. intros H.
  apply app_inv_head in H. simpl in H. injection H as H.
  apply (digits_then "_"%char) in H as [Hp H];
    [|reflexivity|apply str_of_nat_digits|apply str_of_nat_digits].
  injection H as H.
  apply (digits_then "_"%char) in H as [Hs H];
    [|reflexivity|apply str_of_nat_digits|apply str_of_nat_digits].
  injection H as Ht Hi.
  repeat split.
  - now apply str_of_nat_inj.
  - now apply str_of_nat_inj.
  - now apply type_letter_inj.
  - now apply str_of_nat_inj.
Qed.

Lemma map_fst_enumerate {A : Type} (l : list A) :
  map fst (enumerate l) = seq 0 (length l).
Proof.
  unfold enumerate. generalize 0 as off.
  induction l as [|a l IH]; intros off; simpl; [reflexivity|].
  now rewrite IH.
Qed.

(** [collect] on a function that never raises. *)
Lemma collect_total {A B : Type} (f : A -> option (list B)) (l : list A) :
  (forall a, In a l -> exists b, f a = Some b) ->
  exists out, collect f l = Some out.
Proof.
  induction l as [|a l IH]; intros H; simpl; [eauto|].
  destruct (H a) as (b & ->); [now left|].
  destruct IH as (out & ->); [intros; apply H; now right|].
  simpl. eauto.
Qed.

Lemma collect_In {A B : Type} (f : A -> option (list B)) (l : list A)
    (out : list B) (y : B) :
  collect f l = Some out -> In y out ->
  exists a b, In a l /\ f a = Some b /\ In y b.
Proof.
  revert out. induction l as [|a l IH]; intros out; simpl.
  - intros [= <-] [].
  - destruct (f a) as [here|] eqn:Ea; [|discriminate]. simpl.
    destruct (collect f l) as [rest|]; [|discriminate]. simpl.
    intros [= <-] Hy. apply in_app_or in Hy as [Hy|Hy].
    + exists a, here. auto.
    + destruct (IH rest eq_refl Hy) as (a' & b & Ha & Hb & Hyb).
      exists a', b. auto.
Qed.

Lemma collect_Forall {A B : Type} (Q : B -> Prop)
    (f : A -> option (list B)) (l : list A) (out : list B) :
  collect f l = Some out ->
  (forall a b, In a l -> f a = Some b -> Forall Q b) ->
  Forall Q out.
Proof.
  intros Hc H. apply Forall_forall. intros y Hy.
  destruct (collect_In _ _ _ _ Hc Hy) as (a & b & Ha & Hb & Hyb).
  pose proof (H a b Ha Hb) as HQ. rewrite Forall_forall in HQ. auto.
Qed.

(** The keys of the collected outputs are distinct when the outputs of one
    element have distinct keys and carry a tag of that element, the tags
    of the elements are distinct, and equal keys imply equal tags. *)
Lemma collect_NoDup {A B K T : Type} (key : B -> K) (tagA : A -> T)
    (tagB : B -> T) (f : A -> option (list B)) (l : list A) (out : list B) :
  collect f l = Some out ->
  NoDup (map tagA l) ->
  (forall a b, In a l -> f a = Some b ->
     NoDup (map key b) /\ Forall (fun y => tagB y = tagA a) b) ->
  (forall y y', In y out -> In y' out -> key y = key y' ->
     tagB y = tagB y') ->
  NoDup (map key out).
Proof.
  revert out. induction l as [|a l IH]; intros out; simpl.
  - intros [= <-] _ _ _. constructor.
  - destruct (f a) as [here|] eqn:Ea; [|discriminate]. simpl.
    destruct (collect f l) as [rest|] eqn:Er; [|discriminate]. simpl.
    intros [= <-] Hnd Hout Hkey. inversion Hnd as [|? ? Hnotin Hnd']; subst.
    destruct (Hout a here (or_introl eq_refl) Ea) as [Hh Htag].
    rewrite map_app. apply NoDup_app.
    + exact Hh.
    + apply (IH rest eq_refl Hnd').
      * intros a' b Ha' Hb. apply Hout; [now right|exact Hb].
      * intros y y' Hy Hy'. apply Hkey; apply in_or_app; now right.
    + intros k Hk Hk'.
      apply in_map_iff in Hk as (y & <- & Hy).
      apply in_map_iff in Hk' as (y' & Heq & Hy').
      assert (Ht : tagB y' = tagB y).
      { apply Hkey; [apply in_or_app; now right|apply in_or_app; now left|].
        exact Heq. }
      rewrite Forall_forall in Htag. rewrite (Htag y Hy) in Ht.
      destruct (collect_In _ _ _ _ Er Hy') as (a' & b & Ha' & Hb & Hyb).
      destruct (Hout a' b (or_intror Ha') Hb) as [_ Htag'].
      rewrite Forall_forall in Htag'. rewrite (Htag' y' Hyb) in Ht.
      apply Hnotin. rewrite <- Ht. now apply in_map.
Qed.

(** ** Chunk Assembler *)

Section AssemblerProperties.

Variable md5_hexdigest : str -> str.
Variable time_of_id : Z.
Variable time_of_section : nat -> nat -> Z.
Variable file_path : option str.

Local Abbreviation doc :=
  (document_id_of md5_hexdigest time_of_id file_path).
Local Abbreviation placed := (placed_in doc).

Lemma make_chunks_ids (p s : nat) (sec : section) (ty : chunk_type)
    (texts : list str) :
  map Chunk.chunk_id
    (make_chunks md5_hexdigest time_of_id time_of_section file_path
       p s sec ty texts)
  = map (format_chunk_id doc p s ty) (seq 0 (length texts)).
Proof.
  unfold make_chunks. rewrite map_map, <- map_fst_enumerate, map_map.
  apply map_ext. now intros [i t].
Qed.

Lemma make_chunks_placed (p s : nat) (sec : section) (ty : chunk_type)
    (texts : list str) :
  Forall (fun c => placed p c /\ Chunk.section_index c = s)
    (make_chunks md5_hexdigest time_of_id time_of_section file_path
       p s sec ty texts).
Proof.
  apply Forall_forall. intros c Hc. unfold make_chunks in Hc.
  apply in_map_iff in Hc as ([i t] & <- & _).
  repeat split. now exists i.
Qed.

Lemma make_chunks_NoDup (p s : nat) (sec : section) (ty : chunk_type)
    (texts : list str) :
  NoDup (map Chunk.chunk_id
    (make_chunks md5_hexdigest time_of_id time_of_section file_path
       p s sec ty texts)).
Proof.
  rewrite make_chunks_ids. apply NoDup_map_NoDup_ForallPairs.
  - intros i j _ _ H. now apply format_chunk_id_inj in H.
  - apply seq_NoDup.
Qed.

(** With the default [max_rows] the Table Chunker does not raise. *)
Lemma chunk_table_content_default (content : str) :
  exists chunks, chunk_table_content content 10 = Some chunks.
Proof.
  unfold chunk_table_content.
  destruct (_ <=? 10)%Z; [eauto|].
  destruct (header_of _) as [header_line start_idx].
  unfold range. change (10 =? 0)%Z with false. cbv iota. eauto.
Qed.

Lemma chunk_section_some (p s : nat) (sec : section) :
  exists ty texts,
    chunk_section md5_hexdigest time_of_id time_of_section file_path
      p (s, sec)
    = Some (make_chunks md5_hexdigest time_of_id time_of_section file_path
              p s sec ty texts).
Proof.
  unfold chunk_section. destruct (is_tabular_section (content sec)).
  - destruct (chunk_table_content_default (content sec)) as (chunks & ->).
    simpl. eauto.
  - eauto.
Qed.

(** Equal ids of two chunks of one document mean equal places. *)
Lemma same_id_same_place (p p' : nat) (c c' : Chunk.t) :
  placed p c -> placed p' c' ->
  Chunk.chunk_id c = Chunk.chunk_id c' ->
  p = p' /\ Chunk.section_index c = Chunk.section_index c'.
Proof.
  intros (Hd & Hp & i & Hi) (Hd' & Hp' & i' & Hi') H.
  rewrite Hi, Hi', Hd, Hd', Hp, Hp' in H.
  apply format_chunk_id_inj in H. tauto.
Qed.

Lemma chunk_page_some (d : nat) (text : str) :
  exists out,
    chunk_page md5_hexdigest time_of_id time_of_section file_path (d, text)
    = Some out /\
    NoDup (map Chunk.chunk_id out) /\ Forall (placed (d + 1)) out.
Proof.
  unfold chunk_page.
  set (f := chunk_section md5_hexdigest time_of_id time_of_section
              file_path (d + 1)).
  assert (Hf : forall a b, f a = Some b ->
            NoDup (map Chunk.chunk_id b) /\
            Forall (fun c => placed (d + 1) c /\
                             Chunk.section_index c = fst a) b).
  { intros [s sec] b Hb. unfold f in Hb.
    destruct (chunk_section_some (d + 1) s sec) as (ty & texts & Heq).
    rewrite Heq in Hb. injection Hb as <-.
    split; [apply make_chunks_NoDup|apply make_chunks_placed]. }
  destruct (collect_total f (enumerate (split_by_headers text)))
    as (out & Hout).
  { intros [s sec] _. destruct (chunk_section_some (d + 1) s sec)
      as (ty & texts & Heq). unfold f. eauto. }
  exists out. split; [exact Hout|].
  assert (Hpl : Forall (placed (d + 1)) out).
  { apply (collect_Forall _ _ _ _ Hout). intros a b _ Hb.
    destruct (Hf a b Hb) as [_ H]. revert H. apply Forall_impl. tauto. }
  split; [|exact Hpl].
  apply (collect_NoDup Chunk.chunk_id fst Chunk.section_index _ _ _ Hout).
  - rewrite map_fst_enumerate. apply seq_NoDup.
  - intros a b _ Hb. destruct (Hf a b Hb) as [Hn H]. split; [exact Hn|].
    revert H. apply Forall_impl. tauto.
  - rewrite Forall_forall in Hpl. intros y y' Hy Hy' Heq.
    exact (proj2 (same_id_same_place _ _ _ _ (Hpl y Hy) (Hpl y' Hy') Heq)).
Qed.

(** C6: the run returns, the chunk ids it assigns are pairwise distinct,
    and each is the f-string over the document id, the page number, the
    section index, [t] or [c] by the type of the chunk, and a sub-index. *)
Theorem chunk_document_ids (documents : list str) :
  exists chunks,
    chunk_document md5_hexdigest time_of_id time_of_section file_path
      documents = Some chunks /\
    NoDup (map Chunk.chunk_id chunks) /\
    Forall id_formed chunks.
Proof.
  unfold chunk_document.
  set (f := chunk_page md5_hexdigest time_of_id time_of_section file_path).
  assert (Hf : forall a b, f a = Some b ->
            NoDup (map Chunk.chunk_id b) /\ Forall (placed (fst a + 1)) b).
  { intros [d text] b Hb. unfold f in Hb.
    destruct (chunk_page_some d text) as (out & Heq & Hn & Hp).
    rewrite Heq in Hb. injection Hb as <-. auto. }
  destruct (collect_total f (enumerate documents)) as (out & Hout).
  { intros [d text] _. destruct (chunk_page_some d text) as (b & Hb & _).
    unfold f. eauto. }
  exists out. split; [exact Hout|].
  assert (Hpl : Forall (fun c => placed (Chunk.page_number c) c) out).
  { apply (collect_Forall _ _ _ _ Hout). intros a b _ Hb.
    destruct (Hf a b Hb) as [_ H]. revert H. apply Forall_impl.
    intros c Hc. pose proof Hc as (_ & Hp & _). now rewrite Hp. }
  split.
  - apply (collect_NoDup Chunk.chunk_id (fun a => fst a + 1)
             Chunk.page_number _ _ _ Hout).
    + rewrite <- (map_map fst (fun d => d + 1)), map_fst_enumerate.
      apply NoDup_map_NoDup_ForallPairs; [|apply seq_NoDup].
      intros i j _ _ H. lia.
    + intros a b _ Hb. destruct (Hf a b Hb) as [Hn H]. split; [exact Hn|].
      revert H. apply Forall_impl. intros c (_ & Hp & _). exact Hp.
    + rewrite Forall_forall in Hpl. intros y y' Hy Hy' Heq.
      exact (proj1 (same_id_same_place _ _ _ _ (Hpl y Hy) (Hpl y' Hy') Heq)).
  - revert Hpl. apply Forall_impl. intros c (_ & _ & H). exact H.
Qed.

(** C1: a document of one empty page yields one chunk, and its text is
    empty: the fallback section of [split_by_headers] holds the blank page
    and the short-content return of [chunk_text_content] hands it on. *)
Theorem chunk_document_empty_page :
  option_map (map Chunk.text)
    (chunk_document md5_hexdigest time_of_id time_of_section file_path [[]])
  = Some [[]].
Proof. reflexivity. Qed.

End AssemblerProperties.

(** ** Prose Chunker *)









(** *** Terminators are not carried over from a long paragraph *)















(** *** The size of the chunks *)

Section SizeBound.

Variable max_chars : Z.
Variable paragraphs : list str.

Lemma sized_strip (x : str) :
  sized max_chars paragraphs x -> sized max_chars paragraphs (strip x).
Proof.
  intros [H|(paragraph & raw & Hp & Hl & Hr & -> & Hs)].
  - left. pose proof (strip_by_length isspace x). unfold strip. lia.
  - right. exists paragraph, raw. unfold strip.
    rewrite strip_by_idempotent. auto.
Qed.

Lemma flush_sized (chunks : list str) (current_chunk : str) :
  Forall (sized max_chars paragraphs) chunks ->
  current_chunk = [] \/ sized max_chars paragraphs current_chunk ->
  Forall (sized max_chars paragraphs) (flush chunks current_chunk).
Proof.
  intros Hc [->|Hcur]; [exact Hc|]. unfold flush.
  destruct (truthy current_chunk); [|exact Hc].
  apply Forall_app. split; [exact Hc|].
  constructor; [now apply sized_strip|constructor].
Qed.

Local Abbreviation kept := (kept_sized max_chars paragraphs).

(** A piece that fits is joined through a separator of at most two
    characters, whose length the test leaves out. *)
Lemma extend_sized (sep current_chunk piece : str) :
  length sep <= 2 ->
  overflows max_chars current_chunk piece = false ->
  sized max_chars paragraphs (extend sep current_chunk piece).
Proof.
  intros Hsep Hfit. left. unfold overflows in Hfit.
  apply Z.ltb_ge in Hfit. unfold extend.
  destruct (truthy current_chunk); rewrite ?length_app; lia.
Qed.

Lemma add_sentence_sized (paragraph : str) (st : list str * str)
    (raw : str) :
  In paragraph paragraphs ->
  (max_chars < Z.of_nat (length paragraph))%Z ->
  In raw (split_sentences paragraph) ->
  kept st -> kept (add_sentence max_chars st raw).
Proof.
  destruct st as [chunks cur]. unfold kept. simpl. intros Hp Hl Hr [Hc Hcur].
  unfold add_sentence.
  destruct (truthy (strip raw)); simpl; [|auto].
  destruct (overflows max_chars cur (strip raw)) eqn:Eo; simpl.
  - split; [now apply flush_sized|]. right.
    destruct (Z.le_gt_cases (Z.of_nat (length (strip raw))) (max_chars + 2))
      as [Hle|Hgt]; [now left|].
    right. exists paragraph, raw. repeat split; auto. lia.
  - split; [exact Hc|]. right. apply extend_sized; [simpl; lia|exact Eo].
Qed.

Lemma add_sentences_sized (paragraph : str) (raws : list str)
    (st : list str * str) :
  In paragraph paragraphs ->
  (max_chars < Z.of_nat (length paragraph))%Z ->
  incl raws (split_sentences paragraph) ->
  kept st -> kept (fold_left (add_sentence max_chars) raws st).
Proof.
  intros Hp Hl. revert st.
  induction raws as [|raw raws IH]; intros st Hin Hst; simpl; [exact Hst|].
  apply IH; [intros r Hr; apply Hin; now right|].
  apply (add_sentence_sized paragraph); auto. apply Hin. now left.
Qed.

Lemma add_paragraph_sized (st : list str * str) (paragraph : str) :
  In paragraph paragraphs ->
  kept st -> kept (add_paragraph max_chars st paragraph).
Proof.
  intros Hp Hst. unfold add_paragraph.
  destruct (max_chars <? Z.of_nat (length paragraph))%Z eqn:El.
  - apply Z.ltb_lt in El.
    apply (add_sentences_sized paragraph); auto. apply incl_refl.
  - apply Z.ltb_ge in El. destruct st as [chunks cur]. destruct Hst as [Hc Hcur].
    simpl in Hc, Hcur. unfold kept.
    destruct (overflows max_chars cur paragraph) eqn:Eo; simpl.
    + split; [now apply flush_sized|]. right. left. lia.
    + split; [exact Hc|]. right. apply extend_sized; [simpl; lia|exact Eo].
Qed.

Lemma add_paragraphs_sized (ps : list str) (st : list str * str) :
  incl ps paragraphs ->
  kept st ->
  Forall (sized max_chars paragraphs)
    (fst (fold_left (add_paragraph max_chars) ps st)) /\
  (snd (fold_left (add_paragraph max_chars) ps st) = [] \/
   sized max_chars paragraphs (snd (fold_left (add_paragraph max_chars) ps st))).
Proof.
  revert st. induction ps as [|paragraph ps IH]; intros st Hin Hst; simpl;
    [exact Hst|].
  apply IH; [intros r Hr; apply Hin; now right|].
  apply add_paragraph_sized; [apply Hin; now left|exact Hst].
Qed.

End SizeBound.

(** What the code keeps of the size bound: a chunk is longer than
    [max_chars + 2] only when it is a single sentence of a long paragraph
    that is itself longer than [max_chars]. *)
Lemma chunk_text_content_sized (content : str) (max_chars : Z) :
  Forall (sized max_chars (split_nlnl content))
    (chunk_text_content content max_chars).
Proof.
  unfold chunk_text_content.
  destruct (Z.of_nat (length content) <=? max_chars)%Z eqn:El.
  - apply Z.leb_le in El. constructor; [left; lia|constructor].
  - pose proof (add_paragraphs_sized max_chars (split_nlnl content)
                  (split_nlnl content) ([], []) (incl_refl _)) as H.
    destruct H as [Hc Hcur].
    { split; [constructor|now left]. }
    destruct (fold_left _ _ _) as [chunks cur]. simpl in Hc, Hcur.
    now apply flush_sized.
Qed.

(** C4: two paragraphs of five characters each, with [max_chars = 10],
    come back as one chunk of twelve characters: the test that joins them
    adds the two lengths and leaves the separator out. *)
Theorem chunk_text_content_over_bound :
  chunk_text_content two_paragraphs 10 = [two_paragraphs] /\
  split_nlnl two_paragraphs = [lit "aaaaa"; lit "bbbbb"] /\
  length two_paragraphs = 12.
Proof. vm_compute. repeat split. Qed.

(** ** Scenarios of the specification *)

(** Scenario A: two sections, titled by the headers without their markup,
    both prose, one chunk each. *)
Example two_sections_split :
  map title (split_by_headers two_sections) = [lit "Title"; lit "Sub"] /\
  map (fun sec => is_tabular_section (content sec))
    (split_by_headers two_sections) = [false; false] /\
  map (fun sec => chunk_text_content (content sec) 1000)
    (split_by_headers two_sections)
  = map (fun sec => [content sec]) (split_by_headers two_sections).
Proof. vm_compute. repeat split. Qed.

(** Scenario D: a paragraph of 1500 characters without a terminator comes
    back whole, as one chunk. *)
Example long_paragraph_whole :
  chunk_text_content long_paragraph 1000 = [long_paragraph].
Proof. vm_compute. reflexivity. Qed.

(** * Further properties of the chunking code *)

(** ** Table Chunker: the rows of the chunks *)














Lemma find_header_bound (l : list str) (off : nat) :
  (snd (find_header (combine (seq off (length l)) l))
   <= Z.of_nat (off + length l))%Z.
Proof.
  revert off. induction l as [|line r IH]; intros off; simpl; [lia|].
  destruct (has_separator line); simpl; [lia|].
  specialize (IH (S off)). lia.
Qed.

Lemma header_of_bound (lines : list str) :
  (snd (header_of lines) <= Z.of_nat (length lines))%Z.
Proof.
  unfold header_of, enumerate. rewrite slice_first_three.
  pose proof (find_header_bound (firstn 3 lines) 0) as H.
  pose proof (length_firstn 3 lines) as Hl. lia.
Qed.

(** A negative [max_rows] makes the Table Chunker return no chunk at all,
    whatever the content. *)
Theorem chunk_table_content_negative (content : str) (max_rows : Z) :
  (max_rows < 0)%Z -> chunk_table_content content max_rows = Some [].
Proof.
  intros Hneg. unfold chunk_table_content.
  set (lines := non_empty_lines content).
  assert (El : (Z.of_nat (length lines) <=? max_rows)%Z = false)
    by (apply Z.leb_gt; lia).
  rewrite El. pose proof (header_of_bound lines) as Hb.
  destruct (header_of lines) as [h start]. simpl in Hb.
  unfold range.
  assert (E0 : (max_rows =? 0)%Z = false) by (apply Z.eqb_neq; lia).
  assert (Es : (0 <? max_rows)%Z = false) by (apply Z.ltb_ge; lia).
  assert (Ed : (Z.of_nat (length lines) <? start)%Z = false)
    by (apply Z.ltb_ge; lia).
  now rewrite E0, Es, Ed.
Qed.

Lemma chunk_table_content_negative_witness :
  chunk_table_content table_25 (-1) = Some [].
Proof. apply chunk_table_content_negative. reflexivity. Defined.

(** With [max_rows = 0] the Table Chunker raises as soon as the content
    has a non-blank line. *)
Theorem chunk_table_content_zero (content : str) :
  non_empty_lines content <> [] -> chunk_table_content content 0 = None.
Proof.
  intros Hne. unfold chunk_table_content.
  destruct (non_empty_lines content) as [|line r]; [congruence|].
  assert (El : (Z.of_nat (length (line :: r)) <=? 0)%Z = false)
    by (apply Z.leb_gt; simpl length; lia).
  rewrite El. now destruct (header_of (line :: r)).
Qed.

Lemma chunk_table_content_zero_witness :
  chunk_table_content table_25 0 = None.
Proof. apply chunk_table_content_zero. vm_compute. discriminate. Defined.

(** ** Prose Chunker: what the chunks look like *)

Lemma flush_stripped (chunks : list str) (current_chunk : str) :
  Forall (fun chunk => strip chunk = chunk) chunks ->
  Forall (fun chunk => strip chunk = chunk) (flush chunks current_chunk).
Proof.
  intros H. unfold flush. destruct (truthy current_chunk); [|exact H].
  apply Forall_app. split; [exact H|].
  constructor; [apply strip_by_idempotent|constructor].
Qed.

Lemma add_sentence_stripped (max_chars : Z) (st : list str * str)
    (raw : str) :
  Forall (fun chunk => strip chunk = chunk) (fst st) ->
  Forall (fun chunk => strip chunk = chunk)
    (fst (add_sentence max_chars st raw)).
Proof.
  destruct st as [chunks cur]. simpl. intros H. unfold add_sentence.
  destruct (truthy (strip raw)); simpl; [|exact H].
  destruct (overflows max_chars cur (strip raw)); simpl;
    [now apply flush_stripped|exact H].
Qed.

Lemma add_paragraph_stripped (max_chars : Z) (st : list str * str)
    (paragraph : str) :
  Forall (fun chunk => strip chunk = chunk) (fst st) ->
  Forall (fun chunk => strip chunk = chunk)
    (fst (add_paragraph max_chars st paragraph)).
Proof.
  intros H. unfold add_paragraph.
  destruct (max_chars <? Z.of_nat (length paragraph))%Z.
  - revert st H. induction (split_sentences paragraph) as [|raw raws IH];
      intros st H; simpl; [exact H|].
    apply IH. now apply add_sentence_stripped.
  - destruct st as [chunks cur]. simpl in H.
    destruct (overflows max_chars cur paragraph); simpl;
      [now apply flush_stripped|exact H].
Qed.

(** Content longer than [max_chars] comes back in chunks that carry no
    leading or trailing whitespace. *)
Theorem chunk_text_content_stripped (content : str) (max_chars : Z) :
  (max_chars < Z.of_nat (length content))%Z ->
  Forall (fun chunk => strip chunk = chunk)
    (chunk_text_content content max_chars).
Proof.
  intros Hlen. unfold chunk_text_content.
  apply Z.ltb_lt in Hlen. rewrite Z.leb_antisym, Hlen. simpl.
  assert (H : forall ps st,
            Forall (fun chunk => strip chunk = chunk) (fst st) ->
            Forall (fun chunk => strip chunk = chunk)
              (fst (fold_left (add_paragraph max_chars) ps st))).
  { induction ps as [|p ps IH]; intros st Hst; simpl; [exact Hst|].
    apply IH. now apply add_paragraph_stripped. }
  specialize (H (split_nlnl content) ([], []) (Forall_nil _)).
  destruct (fold_left _ _ _) as [chunks cur]. now apply flush_stripped.
Qed.

Lemma chunk_text_content_stripped_witness :
  Forall (fun chunk => strip chunk = chunk)
    (chunk_text_content three_sentences 12).
Proof. apply chunk_text_content_stripped. vm_compute. reflexivity. Defined.

Lemma split_nlnl_whole (x : str) :
  substring_in [chr_nl; chr_nl] x = false -> split_nlnl x = [x].
Proof.
  induction x as [|c t IH]; [reflexivity|].
  destruct t as [|d r]; [reflexivity|].
  intros H. cbn [substring_in starts_with] in H.
  apply orb_false_iff in H as [Hhere Hrest].
  change (split_nlnl (c :: d :: r))
    with (if Ascii.eqb c chr_nl && Ascii.eqb d chr_nl
          then [] :: split_nlnl r
          else cons_head c (split_nlnl (d :: r))).
  rewrite andb_true_r in Hhere.
  rewrite (Ascii.eqb_sym c), (Ascii.eqb_sym d), Hhere.
  rewrite IH; [reflexivity|]. exact Hrest.
Qed.

Lemma split_sentences_whole (x : str) :
  has_terminator x = false -> split_sentences x = [x].
Proof.
  unfold split_sentences, has_terminator.
  induction x as [|c t IH]; simpl; [reflexivity|].
  intros H. apply orb_false_iff in H as [Hc Ht].
  now rewrite Hc, (IH Ht).
Qed.

(** Text longer than [max_chars] that holds neither a blank-line separator
    nor a sentence terminator cannot be split: it comes back whole, as one
    stripped chunk however long, or as no chunk when it is blank. *)
Theorem chunk_text_content_unbroken (content : str) (max_chars : Z) :
  (max_chars < Z.of_nat (length content))%Z ->
  substring_in [chr_nl; chr_nl] content = false ->
  has_terminator content = false ->
  chunk_text_content content max_chars
  = if truthy (strip content) then [strip content] else [].
Proof.
  intros Hlen Hnn Hterm. unfold chunk_text_content.
  apply Z.ltb_lt in Hlen. rewrite Z.leb_antisym, Hlen.
  rewrite (split_nlnl_whole _ Hnn). cbn [negb fold_left].
  unfold add_paragraph. rewrite Hlen.
  rewrite (split_sentences_whole _ Hterm). cbn [fold_left].
  unfold add_sentence.
  assert (Hflush : truthy (strip content) = true ->
            flush [] (strip content) = [strip content]).
  { intros Et. unfold flush. rewrite Et. simpl app.
    unfold strip. now rewrite strip_by_idempotent. }
  destruct (truthy (strip content)) eqn:Et; cbn [negb]; [|reflexivity].
  destruct (overflows max_chars [] (strip content));
    cbn [flush extend truthy]; now apply Hflush.
Qed.

Lemma chunk_text_content_unbroken_witness :
  chunk_text_content long_paragraph 1000
  = if truthy (strip long_paragraph) then [strip long_paragraph] else [].
Proof.
  apply chunk_text_content_unbroken; vm_compute; reflexivity.
Defined.

(** ** Section Splitter: sections and titles *)

Lemma add_to_content_twice (sec : section) (a b : str) :
  add_to_content (add_to_content sec a) b = add_to_content sec (a ++ b).
Proof. unfold add_to_content. simpl. now rewrite app_assoc. Qed.

Lemma split_step_no_header (secs : list section) (cur : section)
    (raw : str) :
  is_header (strip raw) = false ->
  split_step (secs, cur) raw
  = (secs, add_to_content cur (strip raw ++ [chr_nl])).
Proof.
  intros Hraw. unfold split_step. rewrite is_header_spec in Hraw.
  destruct (truthy (strip raw)) eqn:Et; simpl negb; cbv iota.
  - now destruct (matching_pattern (strip raw)).
  - now destruct (strip raw).
Qed.

Lemma split_loop_no_header (raws : list str) (secs : list section)
    (cur : section) :
  Forall (fun raw => is_header (strip raw) = false) raws ->
  fold_left split_step raws (secs, cur)
  = (secs, add_to_content cur
             (concat (map (fun raw => strip raw ++ [chr_nl]) raws))).
Proof.
  intros H. revert cur.
  induction H as [|raw raws Hraw _ IH]; intros cur; cbn [fold_left map concat].
  - unfold add_to_content. rewrite app_nil_r. now destruct cur.
  - now rewrite (split_step_no_header _ _ _ Hraw), IH, add_to_content_twice.
Qed.

(** A page without a header line gives one section, titled
    [Introduction], whose content is the page with every line stripped and
    followed by a newline; only a blank page gives the fallback section
    [Document Content], which holds the page as it is. *)
Theorem split_by_headers_no_header (text : str) :
  Forall (fun line => is_header line = false) (stripped_lines text) ->
  split_by_headers text
  = if truthy (strip (normalized text))
    then [{| title := lit "Introduction"; content := normalized text |}]
    else [{| title := lit "Document Content"; content := text |}].
Proof.
  intros H. unfold split_by_headers, split_loop.
  unfold stripped_lines in H. rewrite Forall_map in H.
  rewrite (split_loop_no_header _ _ _ H).
  unfold seal, add_to_content. simpl content. simpl title.
  unfold normalized, stripped_lines. rewrite map_map.
  now destruct (truthy (strip _)).
Qed.

Lemma split_by_headers_no_header_witness :
  split_by_headers (lit "  one " ++ [chr_nl] ++ lit "two")
  = [{| title := lit "Introduction";
        content := lit "one" ++ [chr_nl] ++ lit "two" ++ [chr_nl] |}].
Proof.
  apply (split_by_headers_no_header (lit "  one " ++ [chr_nl] ++ lit "two")).
  repeat (constructor; [vm_compute; reflexivity|]). constructor.
Defined.

(** The result is never empty, and unless it is the fallback section every
    section has content that is not blank and ends with a newline. *)
Theorem split_by_headers_sections (text : str) :
  split_by_headers text <> [] /\
  (split_by_headers text
   = [{| title := lit "Document Content"; content := text |}] \/
   Forall sealed_ok (split_by_headers text)).
Proof.
  assert (Hinit : loop_invariant
            (@nil section, {| title := lit "Introduction"; content := [] |})).
  { split; [constructor|now left]. }
  destruct (split_loop_lines (split chr_nl text) _
              (split_pieces_without_sep chr_nl text) Hinit) as [Hinv _].
  unfold split_by_headers, split_loop.
  destruct (fold_left split_step _ _) as [secs cur].
  pose proof (seal_invariant _ _ Hinv) as Hok.
  destruct (seal secs cur) as [|sec rest].
  - split; [discriminate|now left].
  - split; [discriminate|now right].
Qed.

Lemma strip_chars_clean (x : str) : clean_ends (strip_chars markup x).
Proof.
  unfold clean_ends, strip_chars.
  destruct (strip_by_ends (char_in markup) x)
    as [->|(c & m & d & Hc & Hd & [[-> ->]| ->])].
  - split; intros c [=].
  - split; intros c' [= <-]; assumption.
  - split.
    + intros c' [= <-]. exact Hc.
    + change (c :: m ++ [d]) with ((c :: m) ++ [d]).
      rewrite rev_app_distr. intros c' [= <-]. exact Hd.
Qed.

Lemma title_from_step (text : str) (st : list section * section)
    (raw : str) :
  In (strip raw) (stripped_lines text) ->
  Forall (fun sec => title_from text (title sec) /\ clean_ends (title sec))
    (snd st :: fst st) ->
  Forall (fun sec => title_from text (title sec) /\ clean_ends (title sec))
    (snd (split_step st raw) :: fst (split_step st raw)).
Proof.
  destruct st as [secs cur]. simpl. intros Hin H.
  inversion H as [|? ? Hcur Hsecs]; subst.
  unfold split_step.
  destruct (truthy (strip raw)); simpl negb; cbv iota.
  - destruct (matching_pattern (strip raw)) eqn:Em; simpl.
    + constructor.
      * split; [|apply strip_chars_clean].
        right; right. exists (strip raw). repeat split; [exact Hin|].
        rewrite is_header_spec. now rewrite Em.
      * unfold seal. destruct (truthy _); [|exact Hsecs].
        apply Forall_app. split; [exact Hsecs|]. now constructor.
    + constructor; assumption.
  - constructor; assumption.
Qed.

(** Every title is [Introduction], [Document Content], or a header line of
    the page without its markup; in each case neither end of the title is
    one of the characters [#], space, [*], [_] and [:]. *)
Theorem split_by_headers_titles (text : str) :
  Forall (fun sec => title_from text (title sec) /\ clean_ends (title sec))
    (split_by_headers text).
Proof.
  assert (Hloop : forall raws st,
            incl (map strip raws) (stripped_lines text) ->
            Forall (fun sec => title_from text (title sec) /\
                               clean_ends (title sec)) (snd st :: fst st) ->
            Forall (fun sec => title_from text (title sec) /\
                               clean_ends (title sec))
              (snd (fold_left split_step raws st)
               :: fst (fold_left split_step raws st))).
  { induction raws as [|raw raws IH]; intros st Hin Hst; simpl; [exact Hst|].
    apply IH; [intros x Hx; apply Hin; now right|].
    apply title_from_step; [apply Hin; now left|exact Hst]. }
  specialize (Hloop (split chr_nl text)
                ([], {| title := lit "Introduction"; content := [] |})
                (incl_refl _)).
  unfold split_by_headers, split_loop.
  destruct (fold_left split_step _ _) as [secs cur]. simpl in Hloop.
  assert (Hall : Forall (fun sec => title_from text (title sec) /\
                                    clean_ends (title sec)) (cur :: secs)).
  { apply Hloop. constructor; [|constructor].
    split; [now left|]. split; intros c [= <-]; reflexivity. }
  inversion Hall as [|? ? Hcur Hsecs]; subst.
  assert (Hseal : Forall (fun sec => title_from text (title sec) /\
                                     clean_ends (title sec)) (seal secs cur)).
  { unfold seal. destruct (truthy _); [|exact Hsecs].
    apply Forall_app. split; [exact Hsecs|]. now constructor. }
  destruct (seal secs cur) as [|sec rest]; [|exact Hseal].
  constructor; [|constructor]. simpl.
  split; [right; now left|]. split; intros c [= <-]; reflexivity.
Qed.

(** ** Content-Type Classifier: sufficient and necessary conditions *)

Lemma lines_without (c : ascii) (content : str) :
  contains c content = false ->
  Forall (fun line => contains c line = false) (split chr_nl content).
Proof.
  intros H. apply Forall_forall. intros line Hin.
  apply contains_false_iff. intros Hc.
  apply contains_false_iff in H. apply H.
  exact (split_pieces_incl _ _ _ Hin _ Hc).
Qed.

Lemma Qgtb_zero (b : nat) (p : Z) (q : positive) :
  (0 <= p)%Z -> Qgtb (ratio 0 b) (p # q) = false.
Proof.
  intros Hp. unfold Qgtb, ratio, Qle_bool. simpl.
  apply negb_false_iff, Z.leb_le. lia.
Qed.

(** Content in which no pipe and no tab occurs is never tabular, whatever
    keywords it holds. *)
Theorem is_tabular_section_no_separator (content : str) :
  contains chr_pipe content = false ->
  contains chr_tab content = false ->
  is_tabular_section content = false.
Proof.
  intros Hp Ht. unfold is_tabular_section.
  destruct (length (split chr_nl content) <? 2); [reflexivity|].
  pose proof (lines_without _ _ Hp) as Hlp.
  pose proof (lines_without _ _ Ht) as Hlt.
  set (lines := split chr_nl content) in *.
  assert (Hpipe : filter is_pipe_line lines = []).
  { apply filter_none. intros line Hin. rewrite Forall_forall in Hlp.
    unfold is_pipe_line. now rewrite (Hlp line Hin). }
  assert (Htab : filter is_tab_line lines = []).
  { apply filter_none. intros line Hin. rewrite Forall_forall in Hlt.
    unfold is_tab_line. now rewrite (Hlt line Hin). }
  assert (Hcc : column_counts lines = []).
  { clear Hpipe Htab. induction lines as [|line r IH]; [reflexivity|].
    inversion Hlp; inversion Hlt; subst. simpl.
    rewrite H1, H5. now apply IH. }
  unfold pipe_ratio, tab_ratio. rewrite Hpipe, Htab, Hcc. simpl length.
  rewrite !Qgtb_zero by lia. simpl. now rewrite andb_false_r.
Qed.

Lemma is_tabular_section_no_separator_witness :
  is_tabular_section
    (lit "premium table" ++ [chr_nl] ++ lit "benefit amount") = false.
Proof.
  apply is_tabular_section_no_separator; vm_compute; reflexivity.
Defined.

Lemma column_counts_length (lines : list str) :
  length (column_counts lines) <= length lines.
Proof.
  induction lines as [|line r IH]; simpl; [lia|].
  destruct (contains chr_pipe line); simpl; [lia|].
  destruct (contains chr_tab line); simpl; lia.
Qed.

Lemma count_occ_all_equal (counts : list nat) (v : nat) :
  (forall n, In n counts -> n = v) ->
  count_occ Nat.eq_dec counts v = length counts.
Proof.
  induction counts as [|a counts IH]; intros H; [reflexivity|].
  rewrite (H a) by now left. simpl.
  destruct (Nat.eq_dec v v); [|congruence].
  f_equal. apply IH. intros n Hn. apply H. now right.
Qed.

(** When at least two lines hold a separator and all of them hold the same
    number of separators, the content is tabular: one pipe per line is
    enough, and no keyword is needed. *)
Theorem is_tabular_section_uniform (content : str) (v : nat) :
  1 < length (column_counts (split chr_nl content)) ->
  (forall n, In n (column_counts (split chr_nl content)) -> n = v) ->
  is_tabular_section content = true.
Proof.
  intros Hlen Hall. unfold is_tabular_section.
  pose proof (column_counts_length (split chr_nl content)) as Hle.
  set (lines := split chr_nl content) in *.
  set (counts := column_counts lines) in *.
  assert (E2 : (length lines <? 2) = false) by (apply Nat.ltb_ge; lia).
  rewrite E2.
  assert (Hcons : Qgtb (consistency counts) (6 # 10) = true).
  { unfold consistency. destruct counts as [|a r] eqn:Ec; [simpl in Hlen; lia|].
    rewrite <- Ec in *.
    rewrite count_most_common_count. unfold max_frequency.
    assert (Hmax : list_max (map (count_occ Nat.eq_dec counts) counts)
                   = length counts).
    { apply Nat.le_antisymm.
      - apply list_max_map_le. intros x _. apply count_occ_bound.
      - rewrite <- (count_occ_all_equal counts v Hall) at 1.
        apply list_max_map_ge. rewrite Ec. left.
        apply Hall. rewrite Ec. now left. }
    rewrite Hmax. apply Qgtb_ratio; lia. }
  apply Nat.ltb_lt in Hlen. rewrite Hcons, Hlen. simpl.
  now rewrite orb_true_r.
Qed.

Lemma is_tabular_section_uniform_witness :
  is_tabular_section ten_lines_two_pipes = true.
Proof.
  apply (is_tabular_section_uniform ten_lines_two_pipes 1).
  - vm_compute. lia.
  - vm_compute. intros n [<-|[<-|[]]]; reflexivity.
Defined.

(** ** Structure Analyzer *)

Lemma count_positive (c : ascii) (x : str) :
  0 < count c x <-> contains c x = true.
Proof.
  unfold count, contains. induction x as [|a x IH]; simpl.
  - split; [lia|discriminate].
  - destruct (Ascii.eqb c a); simpl; [split; [reflexivity|lia]|exact IH].
Qed.

Lemma separators_positive (line : str) :
  0 < separators line <-> has_separator line = true.
Proof.
  unfold separators, or_else, has_separator.
  rewrite orb_true_iff, <- !count_positive.
  destruct (count chr_pipe line =? 0) eqn:E.
  - apply Nat.eqb_eq in E. lia.
  - apply Nat.eqb_neq in E. lia.
Qed.

Lemma table_column_counts_min (lines : list str) :
  Forall (fun n => 2 <= n) (table_column_counts lines).
Proof.
  induction lines as [|line r IH]; simpl; [constructor|].
  destruct (contains chr_pipe line) eqn:Ep.
  - constructor; [|exact IH]. apply count_positive in Ep. lia.
  - destruct (contains chr_tab line) eqn:Et; [|exact IH].
    constructor; [|exact IH]. apply count_positive in Et. lia.
Qed.

Lemma table_column_counts_nil (lines : list str) :
  table_column_counts lines = [] <-> existsb has_separator lines = false.
Proof.
  induction lines as [|line r IH]; simpl; [tauto|].
  unfold has_separator at 1.
  destruct (contains chr_pipe line); simpl; [split; discriminate|].
  destruct (contains chr_tab line); simpl; [split; discriminate|exact IH].
Qed.

(** The estimate of the columns is at least 1, and at least 2 exactly when
    some non-blank line holds a pipe or a tab; a table reported with a
    header has at least two rows and two columns. *)
Theorem analyze_table_structure_bounds (table_text : str) :
  let info := analyze_table_structure table_text in
  1 <= estimated_columns info /\
  (2 <= estimated_columns info <->
   existsb has_separator (non_empty_lines table_text) = true) /\
  (has_header info = true ->
   2 <= row_count info /\ 2 <= estimated_columns info).
Proof.
  unfold analyze_table_structure. simpl.
  set (lines := non_empty_lines table_text).
  pose proof (table_column_counts_min lines) as Hmin.
  pose proof (table_column_counts_nil lines) as Hnil.
  assert (Hcols : 2 <= match table_column_counts lines with
                       | [] => 1
                       | _ :: _ => list_max (table_column_counts lines)
                       end <->
                  existsb has_separator lines = true).
  { destruct (table_column_counts lines) as [|n r] eqn:Ec.
    - rewrite (proj1 Hnil eq_refl). split; [lia|discriminate].
    - split.
      + intros _. apply not_false_iff_true. intros Hf.
        apply Hnil in Hf. discriminate.
      + intros _. inversion Hmin; subst. simpl. lia. }
  split; [|split; [exact Hcols|]].
  - destruct (table_column_counts lines) as [|n r]; [lia|].
    inversion Hmin; subst. simpl. lia.
  - destruct lines as [|first [|second rest]] eqn:El; try discriminate.
    intros H. apply andb_true_iff in H as [_ Hpos].
    apply Nat.ltb_lt, separators_positive in Hpos.
    split; [simpl; lia|]. apply Hcols. simpl. now rewrite Hpos.
Qed.

(** A two-step induction on lists, as [split_nlnl] recurses. *)
Lemma list_ind_pairs {A : Type} (P : list A -> Prop) :
  P [] -> (forall a, P [a]) ->
  (forall a b l, P l -> P (b :: l) -> P (a :: b :: l)) ->
  forall l, P l.
Proof.
  intros H0 H1 H2 l.
  assert (H : P l /\ forall a, P (a :: l)).
  { induction l as [|b l [IH IH']]; [split; [exact H0|exact H1]|].
    split; [apply IH'|]. intros a. apply H2; [exact IH|apply IH']. }
  exact (proj1 H).
Qed.

Lemma split_nlnl_pieces_incl (x piece : str) :
  In piece (split_nlnl x) -> incl piece x.
Proof.
  revert piece. induction x as [|a|a b l IHl IHbl] using list_ind_pairs;
    intros piece.
  - intros [<-|[]]. apply incl_refl.
  - intros [<-|[]]. apply incl_refl.
  - change (split_nlnl (a :: b :: l))
      with (if Ascii.eqb a chr_nl && Ascii.eqb b chr_nl
            then [] :: split_nlnl l
            else cons_head a (split_nlnl (b :: l))).
    destruct (Ascii.eqb a chr_nl && Ascii.eqb b chr_nl).
    + intros [<-|H]; [intros c []|].
      apply incl_tl, incl_tl. now apply IHl.
    + destruct (split_nlnl (b :: l)) as [|h r]; simpl.
      * intros [<-|[]]. intros c [<-|[]]. now left.
      * intros [<-|H].
        -- intros c [<-|Hc]; [now left|]. right.
           apply (IHbl h); [now left|exact Hc].
        -- apply incl_tl. apply IHbl. now right.
Qed.

Lemma split_nlnl_not_nil (x : str) : split_nlnl x <> [].
Proof.
  destruct x as [|a [|b l]]; try discriminate.
  change (split_nlnl (a :: b :: l))
    with (if Ascii.eqb a chr_nl && Ascii.eqb b chr_nl
          then [] :: split_nlnl l
          else cons_head a (split_nlnl (b :: l))).
  destruct (_ && _); [discriminate|].
  destruct (split_nlnl (b :: l)); simpl; discriminate.
Qed.

Lemma split_nlnl_covers (c : ascii) (x : str) :
  In c x -> c <> chr_nl ->
  exists piece, In piece (split_nlnl x) /\ In c piece.
Proof.
  intros Hin Hne. revert Hin.
  induction x as [|a|a b l IHl IHbl] using list_ind_pairs.
  - intros [].
  - intros [->|[]]. exists [c]. split; now left.
  - intros Hin.
    change (split_nlnl (a :: b :: l))
      with (if Ascii.eqb a chr_nl && Ascii.eqb b chr_nl
            then [] :: split_nlnl l
            else cons_head a (split_nlnl (b :: l))).
    destruct (Ascii.eqb a chr_nl && Ascii.eqb b chr_nl) eqn:E.
    + apply andb_true_iff in E as [Ea Eb].
      apply Ascii.eqb_eq in Ea, Eb. subst a b.
      destruct Hin as [Hc'|[Hc'|Hin]]; [congruence|congruence|].
      destruct (IHl Hin) as (piece & Hp & Hc).
      exists piece. split; [now right|exact Hc].
    + pose proof (split_nlnl_not_nil (b :: l)) as Hnn.
      destruct (split_nlnl (b :: l)) as [|h r]; [congruence|]. simpl.
      destruct Hin as [->|Hin].
      * exists (c :: h). split; now left.
      * destruct (IHbl Hin) as (piece & [<-|Hp] & Hc).
        -- exists (a :: h). split; [now left|now right].
        -- exists piece. split; [now right|exact Hc].
Qed.

Lemma split_runs_pieces_incl (in_run : bool) (x piece : str) :
  In piece (split_runs in_run x) -> incl piece x.
Proof.
  revert in_run piece. induction x as [|c t IH]; intros in_run piece; simpl.
  - intros [<-|[]]. apply incl_refl.
  - destruct (terminator c).
    + destruct in_run.
      * intros H. apply incl_tl. now apply (IH true).
      * intros [<-|H]; [intros a []|]. apply incl_tl. now apply (IH true).
    + destruct (split_runs false t) as [|h r] eqn:Es; simpl.
      * intros [<-|[]]. intros a [<-|[]]. now left.
      * intros [<-|H].
        -- intros a [<-|Ha]; [now left|]. right.
           apply (IH false h); [rewrite Es; now left|exact Ha].
        -- apply incl_tl. apply (IH false). rewrite Es. now right.
Qed.

Lemma split_whitespace_nil (cur x : str) :
  split_whitespace cur x = [] <-> cur = [] /\ forallb isspace x = true.
Proof.
  revert cur. induction x as [|c t IH]; intros cur; simpl.
  - destruct cur; simpl; [tauto|]. split; [discriminate|intros [? _]; discriminate].
  - destruct (isspace c); simpl.
    + destruct cur as [|a cur]; simpl.
      * rewrite IH. tauto.
      * split; [discriminate|intros [? _]; discriminate].
    + rewrite IH. split; [intros [? _]; discriminate|intros [_ ?]; discriminate].
Qed.

Lemma blank_pieces (pieces : list str) (x : str) :
  (forall piece, In piece pieces -> incl piece x) ->
  non_blank x = false -> filter non_blank pieces = [].
Proof.
  intros Hincl Hb. apply filter_none. intros piece Hp.
  rewrite non_blank_spec, negb_false_iff in *.
  rewrite forallb_forall in *. intros c Hc. apply Hb.
  exact (Hincl piece Hp c Hc).
Qed.

(** The three counts of a blank text are zero; a text that is not blank
    has at least one word and one paragraph.  The word count is zero only
    for a blank text. *)
Theorem analyze_text_structure_blank (text : str) :
  let info := analyze_text_structure text in
  (non_blank text = false ->
   paragraph_count info = 0 /\ sentence_count info = 0 /\
   word_count info = 0) /\
  (non_blank text = true ->
   1 <= paragraph_count info /\ 1 <= word_count info).
Proof.
  unfold analyze_text_structure. simpl. split.
  - intros Hb. repeat split.
    + rewrite (blank_pieces (split_nlnl text) text); [reflexivity| |exact Hb].
      intros piece. apply split_nlnl_pieces_incl.
    + rewrite (blank_pieces (split_sentences text) text);
        [reflexivity| |exact Hb].
      intros piece. apply split_runs_pieces_incl.
    + rewrite non_blank_spec, negb_false_iff in Hb.
      now rewrite (proj2 (split_whitespace_nil [] text) (conj eq_refl Hb)).
  - intros Hnb. split.
    + assert (Hex : exists c, In c text /\ isspace c = false).
      { rewrite non_blank_spec, negb_true_iff in Hnb. clear -Hnb.
        induction text as [|a t IH]; [discriminate|].
        simpl in Hnb. destruct (isspace a) eqn:Ea.
        - destruct (IH Hnb) as (c & Hc & Hs).
          exists c. split; [now right|exact Hs].
        - exists a. split; [now left|exact Ea]. }
      destruct Hex as (c & Hc & Hs).
      assert (Hne : c <> chr_nl) by (intros ->; discriminate).
      destruct (split_nlnl_covers c text Hc Hne) as (piece & Hp & Hcp).
      assert (Hin : In piece (filter non_blank (split_nlnl text))).
      { apply filter_In. split; [exact Hp|].
        rewrite non_blank_spec, negb_true_iff.
        apply not_true_is_false. intros Hall.
        rewrite forallb_forall in Hall. rewrite (Hall c Hcp) in Hs.
        discriminate. }
      destruct (filter non_blank (split_nlnl text)); [destruct Hin|simpl; lia].
    + destruct (split_whitespace [] text) eqn:Ew; [|simpl; lia].
      apply split_whitespace_nil in Ew as [_ Hall].
      rewrite non_blank_spec, Hall in Hnb. discriminate.
Qed.

(** ** Chunk Assembler: where the chunks come from, and their order *)

Lemma in_enumerate {A : Type} (l : list A) (i : nat) (x : A) :
  In (i, x) (enumerate l) -> nth_error l i = Some x.
Proof.
  unfold enumerate.
  assert (H : forall off, In (i, x) (combine (seq off (length l)) l) ->
            off <= i /\ nth_error l (i - off) = Some x).
  { induction l as [|a l IH]; intros off; simpl; [intros []|].
    intros [[= <- <-]|Hin].
    - rewrite Nat.sub_diag. auto.
    - destruct (IH (S off) Hin) as [Hle Hn]. split; [lia|].
      replace (i - off) with (S (i - S off)) by lia. exact Hn. }
  intros Hin. destruct (H 0 Hin) as [_ Hn]. now rewrite Nat.sub_0_r in Hn.
Qed.

Lemma basename_without_slash (name : str) :
  contains "/"%char name = false -> basename name = name.
Proof.
  destruct name as [|c t]; [reflexivity|].
  intros H. cbn [contains existsb] in H.
  apply orb_false_iff in H as [Hc Ht]. simpl.
  unfold contains. rewrite Ht. now rewrite Ascii.eqb_sym, Hc.
Qed.

(** The base name is what follows the last slash. *)
Lemma basename_app (dir name : str) :
  contains "/"%char name = false ->
  basename (dir ++ "/"%char :: name) = name.
Proof.
  intros Hname. induction dir as [|c dir IH].
  - simpl. unfold contains in *. now rewrite Hname.
  - change ((c :: dir) ++ "/"%char :: name)
      with (c :: (dir ++ "/"%char :: name)).
    cbn [basename].
    assert (Hin : contains "/"%char (dir ++ "/"%char :: name) = true).
    { unfold contains. rewrite existsb_app. simpl. apply orb_true_r. }
    now rewrite Hin.
Qed.

Section AssemblerOrigins.

Variable md5_hexdigest : str -> str.
Variable time_of_id : Z.
Variable time_of_section : nat -> nat -> Z.

(** The document id and the document name depend on the base name of the
    path only: two files of the same name in different directories, read
    at the same clock second, get the same id. *)
Theorem document_identity_by_name (dir name : str) :
  contains "/"%char name = false -> truthy name = true ->
  document_id_of md5_hexdigest time_of_id (Some (dir ++ "/"%char :: name))
  = document_id_of md5_hexdigest time_of_id (Some name) /\
  document_name_of (Some (dir ++ "/"%char :: name)) = name /\
  length (document_id_of md5_hexdigest time_of_id (Some name)) <= 12.
Proof.
  intros Hname Ht. unfold document_id_of, document_name_of, path_given.
  simpl path_or_empty. rewrite Ht.
  assert (Hd : truthy (dir ++ "/"%char :: name) = true)
    by (now destruct dir).
  rewrite Hd. unfold generate_document_id.
  rewrite basename_app, basename_without_slash by exact Hname.
  repeat split. apply firstn_le_length.
Qed.

Variable file_path : option str.

Lemma make_chunks_cut (p s : nat) (sec : section) (texts : list str) :
  section_texts sec = Some texts ->
  Forall (fun c => Chunk.page_number c = p /\ Chunk.section_index c = s /\
                   cut_from sec c)
    (make_chunks md5_hexdigest time_of_id time_of_section file_path
       p s sec (section_type sec) texts).
Proof.
  intros Ht. apply Forall_forall. intros c Hc. unfold make_chunks in Hc.
  apply in_map_iff in Hc as ([i t] & <- & Hin).
  repeat split. exists texts. split; [exact Ht|]. simpl.
  apply in_enumerate in Hin. now apply nth_error_In in Hin.
Qed.

Lemma chunk_section_cut (p s : nat) (sec : section) (out : list Chunk.t) :
  chunk_section md5_hexdigest time_of_id time_of_section file_path p (s, sec)
  = Some out ->
  Forall (fun c => Chunk.page_number c = p /\ Chunk.section_index c = s /\
                   cut_from sec c) out.
Proof.
  unfold chunk_section.
  pose proof (make_chunks_cut p s sec) as H.
  unfold section_texts, section_type in H.
  destruct (is_tabular_section (content sec)).
  - destruct (chunk_table_content (content sec) 10) as [texts|];
      [|discriminate].
    simpl. intros [= <-]. now apply H.
  - intros [= <-]. now apply H.
Qed.

(** The run returns, and every chunk comes from a section of a page of the
    document: its page number counts the pages from 1, its section index
    counts the sections of that page from 0, its title is the title of that
    section, its type is the classification of the section's content, and
    its text is one of the texts the chunker of that type returns for it. *)
Theorem chunk_document_origins (documents : list str) :
  exists chunks,
    chunk_document md5_hexdigest time_of_id time_of_section file_path
      documents = Some chunks /\
    Forall (comes_from documents) chunks.
Proof.
  destruct (collect_total
              (chunk_page md5_hexdigest time_of_id time_of_section file_path)
              (enumerate documents)) as (chunks & Hrun).
  { intros [d text] _.
    destruct (chunk_page_some md5_hexdigest time_of_id time_of_section
                file_path d text) as (b & Hb & _). eauto. }
  exists chunks. split; [exact Hrun|].
  apply (collect_Forall _ _ _ _ Hrun). intros [d text] out Hd Hout.
  apply in_enumerate in Hd. unfold chunk_page in Hout.
  apply (collect_Forall _ _ _ _ Hout). intros [s sec] b Hs Hb.
  apply in_enumerate in Hs. apply chunk_section_cut in Hb.
  revert Hb. apply Forall_impl. intros c (Hp & Hi & Hcut).
  unfold comes_from. rewrite Hp, Hi.
  assert (Hlt : d < length documents).
  { apply nth_error_Some. congruence. }
  split; [lia|]. exists text, sec.
  replace (d + 1 - 1) with d by lia. auto.
Qed.

Lemma StronglySorted_app {A : Type} (R : A -> A -> Prop) (l1 l2 : list A) :
  StronglySorted R l1 -> StronglySorted R l2 ->
  (forall x y, In x l1 -> In y l2 -> R x y) ->
  StronglySorted R (l1 ++ l2).
Proof.
  intros H1 H2 H. induction H1 as [|a l1 Hs IH Hall]; [exact H2|].
  simpl. constructor.
  - apply IH. intros x y Hx. apply H. now right.
  - apply Forall_app. split; [exact Hall|].
    apply Forall_forall. intros y Hy. apply H; [now left|exact Hy].
Qed.

Lemma StronglySorted_weaken {A : Type} (R R' : A -> A -> Prop)
    (l : list A) :
  StronglySorted R l -> (forall a b, R a b -> R' a b) ->
  StronglySorted R' l.
Proof.
  intros H Himp. induction H as [|a l Hs IH Hall]; constructor.
  - exact IH.
  - revert Hall. apply Forall_impl. intros b. apply Himp.
Qed.

(** The collected outputs are sorted when the outputs of one element are,
    carry the tag of that element, the tags of the elements increase, and
    a smaller tag means an earlier place. *)
Lemma collect_sorted {A B : Type} (R : B -> B -> Prop) (tagA : A -> nat)
    (tagB : B -> nat) (f : A -> option (list B)) (l : list A)
    (out : list B) :
  collect f l = Some out ->
  StronglySorted (fun a a' => tagA a < tagA a') l ->
  (forall a b, In a l -> f a = Some b ->
     StronglySorted R b /\ Forall (fun y => tagB y = tagA a) b) ->
  (forall y y', In y out -> In y' out -> tagB y < tagB y' -> R y y') ->
  StronglySorted R out.
Proof.
  revert out. induction l as [|a l IH]; intros out; simpl.
  - intros [= <-] _ _ _. constructor.
  - destruct (f a) as [here|] eqn:Ea; [|discriminate]. simpl.
    destruct (collect f l) as [rest|] eqn:Er; [|discriminate]. simpl.
    intros [= <-] Hs Hout HR. inversion Hs as [|? ? Hs' Hlt]; subst.
    destruct (Hout a here (or_introl eq_refl) Ea) as [Hh Htag].
    apply StronglySorted_app.
    + exact Hh.
    + apply (IH rest eq_refl Hs').
      * intros a' b Ha' Hb. apply Hout; [now right|exact Hb].
      * intros y y' Hy Hy'. apply HR; apply in_or_app; now right.
    + intros y y' Hy Hy'.
      apply HR; [apply in_or_app; now left|apply in_or_app; now right|].
      rewrite Forall_forall in Htag. rewrite (Htag y Hy).
      destruct (collect_In _ _ _ _ Er Hy') as (a' & b & Ha' & Hb & Hyb).
      destruct (Hout a' b (or_intror Ha') Hb) as [_ Htag'].
      rewrite Forall_forall in Htag'. rewrite (Htag' y' Hyb).
      rewrite Forall_forall in Hlt. now apply Hlt.
Qed.

Lemma enumerate_increasing {A : Type} (l : list A) :
  StronglySorted (fun a a' : nat * A => fst a < fst a') (enumerate l).
Proof.
  unfold enumerate. generalize 0 as off.
  induction l as [|x l IH]; intros off; simpl; constructor.
  - apply IH.
  - apply Forall_forall. intros [i y] Hin. apply in_combine_l in Hin.
    apply in_seq in Hin. simpl. lia.
Qed.

Lemma same_place_sorted (p s : nat) (l : list Chunk.t) :
  Forall (fun c => Chunk.page_number c = p /\ Chunk.section_index c = s) l ->
  StronglySorted (fun a b => place_le (place a) (place b)) l.
Proof.
  induction 1 as [|c l [Hp Hs] Hall IH]; constructor; [exact IH|].
  revert Hall. apply Forall_impl. intros c' [Hp' Hs'].
  right. unfold place. simpl. lia.
Qed.

(** The chunks come in the order of the pages and, within a page, in the
    order of its sections. *)
Theorem chunk_document_order (documents : list str) :
  exists chunks,
    chunk_document md5_hexdigest time_of_id time_of_section file_path
      documents = Some chunks /\
    StronglySorted (fun a b => place_le (place a) (place b)) chunks.
Proof.
  destruct (collect_total
              (chunk_page md5_hexdigest time_of_id time_of_section file_path)
              (enumerate documents)) as (chunks & Hrun).
  { intros [d text] _.
    destruct (chunk_page_some md5_hexdigest time_of_id time_of_section
                file_path d text) as (b & Hb & _). eauto. }
  exists chunks. split; [exact Hrun|].
  apply (collect_sorted _ (fun a => fst a + 1) Chunk.page_number _ _ _ Hrun).
  - apply (StronglySorted_weaken _ _ _ (enumerate_increasing documents)).
    intros a a'. lia.
  - intros [d text] out _ Hout. unfold chunk_page in Hout.
    assert (Hpage : Forall (fun c => Chunk.page_number c = d + 1) out).
    { apply (collect_Forall _ _ _ _ Hout). intros [s sec] b _ Hb.
      apply chunk_section_cut in Hb. revert Hb. apply Forall_impl. tauto. }
    split; [|exact Hpage].
    apply (collect_sorted _ fst Chunk.section_index _ _ _ Hout).
    + apply enumerate_increasing.
    + intros [s sec] b _ Hb. apply chunk_section_cut in Hb. split.
      * apply (same_place_sorted (d + 1) s).
        revert Hb. apply Forall_impl. tauto.
      * revert Hb. apply Forall_impl. tauto.
    + rewrite Forall_forall in Hpage. intros y y' Hy Hy' Hlt.
      right. unfold place. simpl.
      rewrite (Hpage y Hy), (Hpage y' Hy'). lia.
  - intros y y' _ _ Hlt. now left.
Qed.

End AssemblerOrigins.

Lemma document_identity_by_name_witness :
  document_id_of (fun x => x) 0
    (Some (lit "/tmp/a" ++ "/"%char :: lit "policy.pdf"))
  = document_id_of (fun x => x) 0 (Some (lit "policy.pdf")) /\
  document_name_of (Some (lit "/tmp/a" ++ "/"%char :: lit "policy.pdf"))
  = lit "policy.pdf" /\
  length (document_id_of (fun x => x) 0 (Some (lit "policy.pdf"))) <= 12.
Proof.
  apply (document_identity_by_name (fun x => x) 0 (lit "/tmp/a")
           (lit "policy.pdf")); reflexivity.
Defined.

(** ** Answer parsing *)

Module ReasonProperties.

Import Reason.

Lemma read_confidence_level (conf_text : str) :
  In (read_confidence conf_text) levels.
Proof.
  unfold read_confidence, levels.
  destruct (substring_in (lit "high") conf_text); [now left|].
  destruct (substring_in (lit "low") conf_text);
    [right; right; now left|right; now left].
Qed.

Lemma parse_step_level (st : parse_state) (raw : str) :
  In (confidence st) levels -> In (confidence (parse_step st raw)) levels.
Proof.
  intros H. unfold parse_step.
  destruct (negb (truthy (strip raw))); [exact H|].
  destruct (mentions rationale_keywords (strip raw)); [exact H|].
  destruct (mentions confidence_keywords (strip raw)).
  - simpl. destruct (contains ":"%char (strip raw));
      [apply read_confidence_level|exact H].
  - destruct (current_section st); exact H.
Qed.

Lemma parse_loop_level (response : str) :
  In (confidence (parse_loop response)) levels.
Proof.
  unfold parse_loop.
  assert (H : forall raws st, In (confidence st) levels ->
            In (confidence (fold_left parse_step raws st)) levels).
  { induction raws as [|raw raws IH]; intros st Hst; simpl; [exact Hst|].
    apply IH. now apply parse_step_level. }
  apply H. right. now left.
Qed.

Lemma parse_loop_blank (response : str) :
  non_blank response = false -> answer (parse_loop response) = [].
Proof.
  unfold non_blank, parse_loop. intros H.
  destruct (strip response); [reflexivity|discriminate].
Qed.

(** The parsed record is well formed: the confidence is one of [High],
    [Medium] and [Low], the rationale is never empty, the answer carries no
    surrounding whitespace, and the answer is empty only for a blank
    response. *)
Theorem parse_llm_response_well_formed (response : str) :
  let data := parse_llm_response response in
  In (out_confidence data) levels /\
  out_rationale data <> [] /\
  strip (out_answer data) = out_answer data /\
  (out_answer data = [] <-> non_blank response = false).
Proof.
  unfold parse_llm_response.
  pose proof (parse_loop_level response) as Hlevel.
  pose proof (parse_loop_blank response) as Hblank.
  destruct (truthy (strip (answer (parse_loop response)))) eqn:Et; simpl.
  - repeat split.
    + exact Hlevel.
    + unfold or_default.
      destruct (truthy (strip (rationale (parse_loop response)))) eqn:Er.
      * exact (proj1 (truthy_true _) Er).
      * discriminate.
    + apply strip_by_idempotent.
    + intros H. rewrite H in Et. discriminate.
    + intros H. rewrite (Hblank H) in Et. discriminate.
  - repeat split.
    + exact Hlevel.
    + discriminate.
    + apply strip_by_idempotent.
    + intros H. unfold non_blank. now rewrite H.
    + unfold non_blank. intros H. now destruct (strip response).
Qed.



Lemma strip_by_ends_outside (p : ascii -> bool) (x : str) :
  strip_by p x = [] \/ ends_outside p (strip_by p x).
Proof.
  destruct (strip_by_ends p x)
    as [->|(c & m & d & Hc & Hd & [[-> ->]| ->])]; [now left| |]; right.
  - split; [exists d, []|exists d, []]; auto.
  - split; [exists c, (m ++ [d])|exists d, (c :: m)]; auto.
Qed.

Lemma ends_outside_fixed (p : ascii -> bool) (x : str) :
  ends_outside p x -> strip_by p x = x.
Proof.
  intros [(c & t & -> & Hc) (d & u & Hu & Hd)].
  unfold strip_by. rewrite (lstrip_by_fixed p _ _ Hc), Hu.
  apply rstrip_by_fixed. exact Hd.
Qed.

Lemma ends_outside_app (p : ascii -> bool) (a mid b : str) :
  ends_outside p a -> ends_outside p b -> ends_outside p (a ++ mid ++ b).
Proof.
  intros [(c & t & -> & Hc) _] [_ (d & u & -> & Hd)]. split.
  - exists c, (t ++ mid ++ u ++ [d]). auto.
  - exists d, ((c :: t) ++ mid ++ u). split; [|exact Hd].
    now rewrite <- !app_assoc.
Qed.

(** A trailing character of the class is stripped, and nothing else. *)
Lemma strip_by_trailing (p : ascii -> bool) (x : str) (s : ascii) :
  ends_outside p x -> p s = true -> strip_by p (x ++ [s]) = x.
Proof.
  intros Hx Hs. pose proof (ends_outside_fixed p x Hx) as Hfix.
  destruct Hx as [(c & t & -> & Hc) _].
  unfold strip_by in *. rewrite (lstrip_by_fixed p _ _ Hc) in Hfix.
  change ((c :: t) ++ [s]) with (c :: (t ++ [s])).
  rewrite (lstrip_by_fixed p _ _ Hc).
  change (c :: (t ++ [s])) with ((c :: t) ++ [s]).
  unfold rstrip_by in *. rewrite rev_app_distr. simpl rev at 2.
  cbn [app lstrip_by]. rewrite Hs. exact Hfix.
Qed.

Lemma join_ends_outside (p : ascii -> bool) (sep : str) (l : list str) :
  l <> [] -> Forall (ends_outside p) l -> ends_outside p (join sep l).
Proof.
  intros Hne H. induction H as [|a l Ha Hl IH]; [congruence|].
  destruct l as [|b r]; [exact Ha|].
  change (join sep (a :: b :: r)) with (a ++ sep ++ join sep (b :: r)).
  apply ends_outside_app; [exact Ha|]. apply IH. discriminate.
Qed.

Lemma concat_with_space (l : list str) :
  l <> [] ->
  concat (map (fun line => line ++ lit " ") l) = join (lit " ") l ++ lit " ".
Proof.
  induction l as [|a l IH]; [congruence|]. intros _.
  destruct l as [|b r]; [simpl; now rewrite app_nil_r|].
  change (join (lit " ") (a :: b :: r))
    with (a ++ lit " " ++ join (lit " ") (b :: r)).
  cbn [map concat] in *. rewrite IH by discriminate.
  now rewrite <- !app_assoc.
Qed.

Lemma parse_step_plain (st : parse_state) (raw : str) :
  plain_line (strip raw) = true ->
  current_section st = answer_section ->
  parse_step st raw
  = if truthy (strip raw)
    then {| answer := answer st ++ strip raw ++ lit " ";
            rationale := rationale st;
            confidence := confidence st;
            current_section := answer_section |}
    else st.
Proof.
  unfold plain_line, parse_step. intros Hp Hs.
  apply andb_true_iff in Hp as [Hr Hc].
  apply negb_true_iff in Hr, Hc.
  destruct (truthy (strip raw)); simpl negb; cbv iota; [|reflexivity].
  now rewrite Hr, Hc, Hs.
Qed.

Lemma parse_loop_plain (raws : list str) (st : parse_state) :
  forallb plain_line (map strip raws) = true ->
  current_section st = answer_section ->
  fold_left parse_step raws st
  = {| answer :=
         answer st ++
         concat (map (fun line => line ++ lit " ")
                   (filter truthy (map strip raws)));
       rationale := rationale st;
       confidence := confidence st;
       current_section := answer_section |}.
Proof.
  revert st. induction raws as [|raw raws IH]; intros st Hall Hs.
  - simpl. rewrite app_nil_r. destruct st. simpl in Hs. now subst.
  - cbn [map forallb] in Hall. apply andb_true_iff in Hall as [Hp Hall].
    cbn [fold_left map filter]. rewrite (parse_step_plain st raw Hp Hs).
    destruct (truthy (strip raw)).
    + rewrite IH by (auto; reflexivity). cbn [map concat answer rationale
        confidence]. now rewrite <- !app_assoc.
    + now rewrite IH.
Qed.

Lemma response_lines_nil (response : str) :
  response_lines response = [] -> strip response = [].
Proof.
  unfold response_lines. intros H.
  destruct (truthy (strip response)) eqn:Et;
    [|now destruct (strip response)].
  exfalso. rewrite <- non_blank_strip in Et.
  apply (non_empty_lines_non_blank _ Et). unfold non_empty_lines.
  revert H. generalize (split chr_nl (strip response)) as l.
  induction l as [|a l IH]; [reflexivity|]. simpl.
  change (truthy (strip a)) with (non_blank a).
  destruct (non_blank a); [discriminate|exact IH].
Qed.

(** A response in which no line holds a section keyword is the answer, its
    non-blank lines stripped and joined by single spaces; the rationale is
    the default one and the confidence is [Medium]. *)
Theorem parse_llm_response_plain (response : str) :
  forallb plain_line (map strip (split chr_nl (strip response))) = true ->
  parse_llm_response response
  = {| out_answer := join (lit " ") (response_lines response);
       out_rationale := default_rationale;
       out_confidence := lit "Medium" |}.
Proof.
  intros Hall. unfold parse_llm_response, parse_loop.
  rewrite parse_loop_plain; [|exact Hall|reflexivity].
  cbn [answer rationale confidence app].
  fold (response_lines response).
  destruct (response_lines response) as [|a l] eqn:El.
  - simpl. rewrite (response_lines_nil response El). reflexivity.
  - rewrite <- El.
    assert (Hne : response_lines response <> []) by (rewrite El; discriminate).
    assert (Hends : Forall (ends_outside isspace) (response_lines response)).
    { unfold response_lines. apply Forall_forall. intros x Hx.
      apply filter_In in Hx as [Hx Ht].
      apply in_map_iff in Hx as (raw & <- & _).
      destruct (strip_by_ends_outside isspace raw) as [H|H]; [|exact H].
      unfold strip in Ht. rewrite H in Ht. discriminate. }
    pose proof (join_ends_outside isspace (lit " ") _ Hne Hends) as Hj.
    rewrite (concat_with_space _ Hne).
    assert (Hstrip : strip (join (lit " ") (response_lines response) ++ lit " ")
                     = join (lit " ") (response_lines response)).
    { apply (strip_by_trailing isspace); [exact Hj|reflexivity]. }
    rewrite Hstrip.
    assert (Ht : truthy (join (lit " ") (response_lines response)) = true).
    { destruct Hj as [(c & t & -> & _) _]. reflexivity. }
    rewrite Ht. cbn [negb]. rewrite Hstrip. reflexivity.
Qed.

Lemma parse_llm_response_plain_witness :
  parse_llm_response
    (lit "The grace period" ++ [chr_nl] ++ lit "  is thirty days. ")
  = {| out_answer := lit "The grace period is thirty days.";
       out_rationale := default_rationale;
       out_confidence := lit "Medium" |}.
Proof.
  apply (parse_llm_response_plain
           (lit "The grace period" ++ [chr_nl] ++ lit "  is thirty days. ")).
  vm_compute. reflexivity.
Defined.

End ReasonProperties.
